(** * Total: the puzzle engine of the arithmetic tile game

    A shallow embedding of the game logic service (puzzle resolution,
    arithmetic, grid layout, win test), of the storage service and of the
    state handling of the gameplay screen (selection, reduction, undo,
    restart, level progression), followed by the properties of the
    engine.

    Conventions of the embedding.
    - A JavaScript [number] that holds an integer is a [Z]; the engine only
      ever adds, multiplies, takes absolute differences and exact
      quotients, and the development assumes the values stay in the range
      where doubles represent integers exactly.  [%] is [Z.rem] (the sign
      follows the dividend, as in JavaScript).
    - Strings are [string]; template literals are concatenations.
    - Arrays are immutable once stored in component state, so an array is
      a list together with the address it was allocated at ([TileArray]):
      the address is what a dependency list of an effect compares.
    - [Date.now()] and [Math.random()] are inputs of the operations that
      read them. *)

From Stdlib Require Import ZArith List Ascii String Bool Lia DecimalString.
From Stdlib Require Import DecimalZ DecimalPos.
From stdpp Require Import gmap strings list sorting.
Import ListNotations.

Local Open Scope Z_scope.

(** ** Core game types *)

Inductive Operation : Type :=
| OpAdd   (* '+' *)
| OpSub   (* '-' *)
| OpMul   (* '*' *)
| OpDiv.  (* '/' *)

#[global] Instance Operation_eq_dec : EqDecision Operation.
Proof. solve_decision. Defined.

Record NumberObject : Type := mkNumberObject {
  value : Z;
  id : string;
  position : Z
}.

#[global] Instance NumberObject_eq_dec : EqDecision NumberObject.
Proof. solve_decision. Defined.

Record GridDimensions : Type := mkGridDimensions {
  cols : Z;
  rows : Z
}.

Record Puzzle : Type := mkPuzzle {
  target : Z;
  numbers : list NumberObject
}.

(** An entry of the JSON level table. *)
Record LevelData : Type := mkLevelData {
  level_target : Z;
  level_numbers : list Z
}.

(** [n.toString()] for an integer [n]. *)
Definition toString (n : Z) : string := NilZero.string_of_int (Z.to_int n).

(** ** The game logic service *)

Module GameLogic.

Section WithLevels.

(** The static level table ([levels.json]), keyed by the decimal level
    number. *)
Variable levels : gmap string LevelData.

(** [createFallbackPuzzle]; [now] is the value of [Date.now()]. *)
Definition createFallbackPuzzle (now : Z) (levelNum : Z) : Puzzle :=
  let baseNumbers := [2; 3; 4; 5] in
  let numbers :=
    imap (fun index v =>
            {| value := v + Z.rem levelNum 5;
               id := ("fallback_" ++ toString levelNum ++ "_"
                       ++ toString (Z.of_nat index) ++ "_" ++ toString now)%string;
               position := Z.of_nat index |}) baseNumbers in
  let target :=
    match numbers with
    | n0 :: n1 :: _ => value n0 + value n1
    | _ => 0
    end in
  {| target := target; numbers := numbers |}.

(** [generatePuzzle]. *)
Definition generatePuzzle (now : Z) (levelNum : Z) : Puzzle :=
  let levelKey := toString levelNum in
  match levels !! levelKey with
  | None => createFallbackPuzzle now levelNum
  | Some levelData =>
      let numbers :=
        imap (fun index v =>
                {| value := v;
                   id := ("level_" ++ toString levelNum ++ "_"
                           ++ toString (Z.of_nat index) ++ "_" ++ toString now)%string;
                   position := Z.of_nat index |}) (level_numbers levelData) in
      {| target := level_target levelData; numbers := numbers |}
  end.

(** [levelExists]. *)
Definition levelExists (levelNum : Z) : bool :=
  bool_decide (is_Some (levels !! toString levelNum)).

End WithLevels.

(** [getGridDimensions]. *)
Definition getGridDimensions (numCount : Z) : GridDimensions :=
  if numCount <=? 4 then {| cols := 2; rows := 2 |}
  else if numCount <=? 6 then {| cols := 3; rows := 2 |}
  else {| cols := 3; rows := 3 |}.

(** [validateDivision].  When [smaller] is 0 the JavaScript remainder is
    NaN, which is not [=== 0]; [Z.rem larger 0] is [larger], and
    [larger] is 0 only when both arguments are 0, a case the first test
    has already answered. *)
Definition validateDivision (num1 num2 : Z) : bool :=
  if num2 =? 0 then false
  else
    let larger := Z.max num1 num2 in
    let smaller := Z.min num1 num2 in
    Z.rem larger smaller =? 0.

(** [performCalculation]; [None] is [null].  The quotient is only taken
    after [validateDivision], where it is exact. *)
Definition performCalculation (num1 : Z) (operation : Operation) (num2 : Z)
  : option Z :=
  match operation with
  | OpAdd => Some (num1 + num2)
  | OpSub => Some (Z.abs (num1 - num2))
  | OpMul => Some (num1 * num2)
  | OpDiv =>
      if negb (validateDivision num1 num2) then None
      else
        let larger := Z.max num1 num2 in
        let smaller := Z.min num1 num2 in
        Some (Z.quot larger smaller)
  end.

(** [Math.ceil(n / 3)] for an integer [n]. *)
Definition ceilThird (n : Z) : Z := - ((- n) / 3).

(** One iteration of the [forEach] of [createDisplayGrid]: a tile whose
    position is a slot of the grid is stored there; a position at or past
    the end is skipped by the test, and a negative one names a property
    that is not an element of the array. *)
Definition placeNumber (totalPositions : Z)
    (grid : list (option NumberObject)) (numberObj : NumberObject)
  : list (option NumberObject) :=
  if position numberObj <? totalPositions then
    if 0 <=? position numberObj
    then <[Z.to_nat (position numberObj) := Some numberObj]> grid
    else grid
  else grid.

(** [createDisplayGrid]. *)
Definition createDisplayGrid (availableNumbers : list NumberObject)
    (initialGridSize : Z) : list (option NumberObject) * Z :=
  let cols := cols (getGridDimensions initialGridSize) in
  let rows := if cols =? 2 then 2
              else if cols =? 3 then ceilThird initialGridSize else 3 in
  let totalPositions := cols * rows in
  let grid := replicate (Z.to_nat totalPositions) None in
  (foldl (placeNumber totalPositions) grid availableNumbers, cols).

(** [isGameWon]. *)
Definition isGameWon (availableNumbers : list NumberObject) (targetNumber : Z)
  : bool :=
  existsb (fun num => value num =? targetNumber) availableNumbers.

End GameLogic.

(** ** The storage service *)

Module Storage.

(** What an [async] function of the service can reject with. *)
Inductive Error : Type :=
| LevelTooSmall     (* new Error('Level must be at least 1') *)
| BackendFailure.   (* a rejected AsyncStorage call *)

(** An [async] computation over a store [S]: it leaves a store behind and
    either rejects with an error or resolves to a value. *)
Definition Async (S A : Type) : Type := S -> S * (Error + A).

Definition resolve {S A} (a : A) : Async S A := fun st => (st, inr a).
Definition reject {S A} (e : Error) : Async S A := fun st => (st, inl e).

Definition await {S A B} (m : Async S A) (k : A -> Async S B) : Async S B :=
  fun st =>
    match m st with
    | (st', inr a) => k a st'
    | (st', inl e) => (st', inl e)
    end.

Definition tryCatch {S A} (body : Async S A) (handler : Error -> Async S A)
  : Async S A :=
  fun st =>
    match body st with
    | (st', inr a) => (st', inr a)
    | (st', inl e) => handler e st'
    end.

Notation "x <- m ;; k" := (await m (fun x => k))
  (at level 100, m at next level, right associativity).
Notation "m ;; k" := (await m (fun _ => k))
  (at level 100, right associativity).

(** The key-value backend ([AsyncStorage]) and the JSON codec of arrays of
    integers, as the service uses them. *)
Class Backend (S : Type) : Type := {
  getItem : string -> Async S (option string);
  setItem : string -> string -> Async S unit;
  JSON_stringify : list Z -> string;
  JSON_parse : string -> option (list Z)   (* [None]: the parser throws *)
}.

Definition CURRENT_LEVEL : string := "total_current_level".
Definition COMPLETED_LEVELS : string := "total_completed_levels".

(** The interface of the storage utilities, as far as level progression
    uses it ([getCurrentLevel] is read by the application shell only). *)
Class StorageUtils (S : Type) : Type := {
  setCurrentLevel : Z -> Async S unit;
  getCompletedLevels : Async S (list Z);
  addCompletedLevel : Z -> Async S unit
}.

Section Service.

Context {S : Type} `{Backend S}.

(** [StorageService.setCurrentLevel]: the [catch] logs and rethrows. *)
Definition service_setCurrentLevel (level : Z) : Async S unit :=
  tryCatch
    (if level <? 1 then reject LevelTooSmall
     else setItem CURRENT_LEVEL (toString level))
    (fun error => reject error).

(** [StorageService.getCompletedLevels]: a missing or empty item and any
    failure (a rejected read, a text that does not parse) yield []. *)
Definition service_getCompletedLevels : Async S (list Z) :=
  tryCatch
    (levels <- getItem COMPLETED_LEVELS ;;
     match levels with
     | Some text =>
         if String.eqb text "" then resolve []
         else
           match JSON_parse text with
           | Some parsed => resolve parsed
           | None => reject BackendFailure
           end
     | None => resolve []
     end)
    (fun _ => resolve []).

(** [StorageService.addCompletedLevel]. *)
Definition service_addCompletedLevel (level : Z) : Async S unit :=
  tryCatch
    (if level <? 1 then reject LevelTooSmall
     else
       completed <- service_getCompletedLevels ;;
       if negb (bool_decide (level ∈ completed)) then
         let completed := merge_sort Z.le (completed ++ [level]) in
         setItem COMPLETED_LEVELS (JSON_stringify completed)
       else resolve tt)
    (fun error => reject error).

#[global] Instance StorageService : StorageUtils S := {
  setCurrentLevel := service_setCurrentLevel;
  getCompletedLevels := service_getCompletedLevels;
  addCompletedLevel := service_addCompletedLevel
}.

End Service.

(** An in-memory backend: a table of items and a flag telling whether the
    device storage answers; while it does not, every call rejects. *)
Record MemoryStore : Type := mkMemoryStore {
  items : gmap string string;
  reachable : bool
}.

Definition memory_getItem (key : string) : Async MemoryStore (option string) :=
  fun st => if reachable st then (st, inr (items st !! key))
            else (st, inl BackendFailure).

Definition memory_setItem (key text : string) : Async MemoryStore unit :=
  fun st => if reachable st
            then ({| items := <[key := text]> (items st);
                     reachable := reachable st |}, inr tt)
            else (st, inl BackendFailure).

(** [JSON.stringify] of an array of integers. *)
Definition stringifyArray (l : list Z) : string :=
  ("[" ++ String.concat "," (map toString l) ++ "]")%string.

(** Cut a text at every comma. *)
Fixpoint splitCommas (current : string) (text : string) : list string :=
  match text with
  | EmptyString => [current]
  | String c rest =>
      if Ascii.eqb c ","%char then current :: splitCommas "" rest
      else splitCommas (current ++ String c "")%string rest
  end.

Definition parseInteger (text : string) : option Z :=
  Z.of_int <$> NilZero.int_of_string text.

(** [JSON.parse] restricted to the texts [stringifyArray] writes. *)
Definition parseArray (text : string) : option (list Z) :=
  match text with
  | String "["%char body =>
      match String.length body with
      | O => None
      | Datatypes.S n =>
          if String.eqb (substring n 1 body) "]" then
            let inner := substring 0 n body in
            if String.eqb inner "" then Some []
            else mapM parseInteger (splitCommas "" inner)
          else None
      end
  | _ => None
  end.

#[global] Instance MemoryBackend : Backend MemoryStore := {
  getItem := memory_getItem;
  setItem := memory_setItem;
  JSON_stringify := stringifyArray;
  JSON_parse := parseArray
}.

End Storage.

(** ** The gameplay screen *)

Module GameScreen.

(** An array of tiles together with the address it was allocated at. *)
Record TileArray : Type := mkTileArray {
  addr : nat;
  elems : list NumberObject
}.

(** An entry of the undo history (the interface [GameState]). *)
Record GameState : Type := mkGameState {
  saved_numbers : TileArray;
  gridSize : Z;
  num1 : NumberObject;
  num2 : NumberObject;
  operation : Operation;
  result : Z
}.

(** The [useState] cells of the component. *)
Record Session : Type := mkSession {
  level : Z;
  targetNumber : Z;
  availableNumbers : TileArray;
  initialGridSize : Z;
  originalPuzzle : option Puzzle;
  selectedNumber1 : option NumberObject;
  selectedOperation : option Operation;
  selectedNumber2 : option NumberObject;
  gameWon : bool;
  showLevelComplete : bool;
  invalidOperation : bool;
  gameHistory : list GameState
}.

(** The callbacks handed to [setTimeout]. *)
Inductive Timer : Type :=
| ShowLevelCompleteTimer    (* () => setShowLevelComplete(true), 800 ms *)
| InvalidOperationTimer.    (* () => { setInvalidOperation(false); resetSelection() }, 600 ms *)

#[global] Instance Timer_eq_dec : EqDecision Timer.
Proof. solve_decision. Defined.

(** The component at run time: its cells, the timers not yet fired and
    the next free array address. *)
Record Runtime : Type := mkRuntime {
  session : Session;
  pendingTimers : list Timer;
  nextAddr : nat
}.

(** Functional updates of one cell. *)
Definition withLevel (v : Z) (s : Session) : Session :=
  {| level := v;
     targetNumber := targetNumber s;
     availableNumbers := availableNumbers s;
     initialGridSize := initialGridSize s;
     originalPuzzle := originalPuzzle s;
     selectedNumber1 := selectedNumber1 s;
     selectedOperation := selectedOperation s;
     selectedNumber2 := selectedNumber2 s;
     gameWon := gameWon s;
     showLevelComplete := showLevelComplete s;
     invalidOperation := invalidOperation s;
     gameHistory := gameHistory s |}.

Definition withTargetNumber (v : Z) (s : Session) : Session :=
  {| level := level s;
     targetNumber := v;
     availableNumbers := availableNumbers s;
     initialGridSize := initialGridSize s;
     originalPuzzle := originalPuzzle s;
     selectedNumber1 := selectedNumber1 s;
     selectedOperation := selectedOperation s;
     selectedNumber2 := selectedNumber2 s;
     gameWon := gameWon s;
     showLevelComplete := showLevelComplete s;
     invalidOperation := invalidOperation s;
     gameHistory := gameHistory s |}.

Definition withAvailableNumbers (v : TileArray) (s : Session) : Session :=
  {| level := level s;
     targetNumber := targetNumber s;
     availableNumbers := v;
     initialGridSize := initialGridSize s;
     originalPuzzle := originalPuzzle s;
     selectedNumber1 := selectedNumber1 s;
     selectedOperation := selectedOperation s;
     selectedNumber2 := selectedNumber2 s;
     gameWon := gameWon s;
     showLevelComplete := showLevelComplete s;
     invalidOperation := invalidOperation s;
     gameHistory := gameHistory s |}.

Definition withInitialGridSize (v : Z) (s : Session) : Session :=
  {| level := level s;
     targetNumber := targetNumber s;
     availableNumbers := availableNumbers s;
     initialGridSize := v;
     originalPuzzle := originalPuzzle s;
     selectedNumber1 := selectedNumber1 s;
     selectedOperation := selectedOperation s;
     selectedNumber2 := selectedNumber2 s;
     gameWon := gameWon s;
     showLevelComplete := showLevelComplete s;
     invalidOperation := invalidOperation s;
     gameHistory := gameHistory s |}.

Definition withOriginalPuzzle (v : option Puzzle) (s : Session) : Session :=
  {| level := level s;
     targetNumber := targetNumber s;
     availableNumbers := availableNumbers s;
     initialGridSize := initialGridSize s;
     originalPuzzle := v;
     selectedNumber1 := selectedNumber1 s;
     selectedOperation := selectedOperation s;
     selectedNumber2 := selectedNumber2 s;
     gameWon := gameWon s;
     showLevelComplete := showLevelComplete s;
     invalidOperation := invalidOperation s;
     gameHistory := gameHistory s |}.

Definition withSelectedNumber1 (v : option NumberObject) (s : Session) : Session :=
  {| level := level s;
     targetNumber := targetNumber s;
     availableNumbers := availableNumbers s;
     initialGridSize := initialGridSize s;
     originalPuzzle := originalPuzzle s;
     selectedNumber1 := v;
     selectedOperation := selectedOperation s;
     selectedNumber2 := selectedNumber2 s;
     gameWon := gameWon s;
     showLevelComplete := showLevelComplete s;
     invalidOperation := invalidOperation s;
     gameHistory := gameHistory s |}.

Definition withSelectedOperation (v : option Operation) (s : Session) : Session :=
  {| level := level s;
     targetNumber := targetNumber s;
     availableNumbers := availableNumbers s;
     initialGridSize := initialGridSize s;
     originalPuzzle := originalPuzzle s;
     selectedNumber1 := selectedNumber1 s;
     selectedOperation := v;
     selectedNumber2 := selectedNumber2 s;
     gameWon := gameWon s;
     showLevelComplete := showLevelComplete s;
     invalidOperation := invalidOperation s;
     gameHistory := gameHistory s |}.

Definition withSelectedNumber2 (v : option NumberObject) (s : Session) : Session :=
  {| level := level s;
     targetNumber := targetNumber s;
     availableNumbers := availableNumbers s;
     initialGridSize := initialGridSize s;
     originalPuzzle := originalPuzzle s;
     selectedNumber1 := selectedNumber1 s;
     selectedOperation := selectedOperation s;
     selectedNumber2 := v;
     gameWon := gameWon s;
     showLevelComplete := showLevelComplete s;
     invalidOperation := invalidOperation s;
     gameHistory := gameHistory s |}.

Definition withGameWon (v : bool) (s : Session) : Session :=
  {| level := level s;
     targetNumber := targetNumber s;
     availableNumbers := availableNumbers s;
     initialGridSize := initialGridSize s;
     originalPuzzle := originalPuzzle s;
     selectedNumber1 := selectedNumber1 s;
     selectedOperation := selectedOperation s;
     selectedNumber2 := selectedNumber2 s;
     gameWon := v;
     showLevelComplete := showLevelComplete s;
     invalidOperation := invalidOperation s;
     gameHistory := gameHistory s |}.

Definition withShowLevelComplete (v : bool) (s : Session) : Session :=
  {| level := level s;
     targetNumber := targetNumber s;
     availableNumbers := availableNumbers s;
     initialGridSize := initialGridSize s;
     originalPuzzle := originalPuzzle s;
     selectedNumber1 := selectedNumber1 s;
     selectedOperation := selectedOperation s;
     selectedNumber2 := selectedNumber2 s;
     gameWon := gameWon s;
     showLevelComplete := v;
     invalidOperation := invalidOperation s;
     gameHistory := gameHistory s |}.

Definition withInvalidOperation (v : bool) (s : Session) : Session :=
  {| level := level s;
     targetNumber := targetNumber s;
     availableNumbers := availableNumbers s;
     initialGridSize := initialGridSize s;
     originalPuzzle := originalPuzzle s;
     selectedNumber1 := selectedNumber1 s;
     selectedOperation := selectedOperation s;
     selectedNumber2 := selectedNumber2 s;
     gameWon := gameWon s;
     showLevelComplete := showLevelComplete s;
     invalidOperation := v;
     gameHistory := gameHistory s |}.

Definition withGameHistory (v : list GameState) (s : Session) : Session :=
  {| level := level s;
     targetNumber := targetNumber s;
     availableNumbers := availableNumbers s;
     initialGridSize := initialGridSize s;
     originalPuzzle := originalPuzzle s;
     selectedNumber1 := selectedNumber1 s;
     selectedOperation := selectedOperation s;
     selectedNumber2 := selectedNumber2 s;
     gameWon := gameWon s;
     showLevelComplete := showLevelComplete s;
     invalidOperation := invalidOperation s;
     gameHistory := v |}.


(** Code that runs against the component: it reads and writes the run-time
    state and returns a value. *)
Definition R (A : Type) : Type := Runtime -> A * Runtime.

Definition ret {A} (a : A) : R A := fun r => (a, r).
Definition bind {A B} (m : R A) (k : A -> R B) : R B :=
  fun r => let (a, r') := m r in k a r'.

Notation "x <- m ;; k" := (bind m (fun x => k))
  (at level 100, m at next level, right associativity).
Notation "m ;; k" := (bind m (fun _ => k))
  (at level 100, right associativity).

(** A state setter called with a function of the current cells. *)
Definition update (f : Session -> Session) : R unit :=
  fun r => (tt, {| session := f (session r);
                   pendingTimers := pendingTimers r;
                   nextAddr := nextAddr r |}).

(** Allocation of a new array holding [l] (a literal, a spread copy, the
    result of [filter] or of [map]). *)
Definition newArray (l : list NumberObject) : R TileArray :=
  fun r => ({| addr := nextAddr r; elems := l |},
            {| session := session r;
               pendingTimers := pendingTimers r;
               nextAddr := Datatypes.S (nextAddr r) |}).

Definition setTimeout (t : Timer) : R unit :=
  fun r => (tt, {| session := session r;
                   pendingTimers := pendingTimers r ++ [t];
                   nextAddr := nextAddr r |}).

Definition exec (m : R unit) (r : Runtime) : Runtime := snd (m r).

Definition setLevel v := update (withLevel v).
Definition setTargetNumber v := update (withTargetNumber v).
Definition setAvailableNumbers v := update (withAvailableNumbers v).
Definition setInitialGridSize v := update (withInitialGridSize v).
Definition setOriginalPuzzle v := update (withOriginalPuzzle v).
Definition setSelectedNumber1 v := update (withSelectedNumber1 v).
Definition setSelectedOperation v := update (withSelectedOperation v).
Definition setSelectedNumber2 v := update (withSelectedNumber2 v).
Definition setGameWon v := update (withGameWon v).
Definition setShowLevelComplete v := update (withShowLevelComplete v).
Definition setInvalidOperation v := update (withInvalidOperation v).
Definition setGameHistory (f : list GameState -> list GameState) : R unit :=
  update (fun s => withGameHistory (f (gameHistory s)) s).

(** The tiles in play. *)
Definition tiles (s : Session) : list NumberObject := elems (availableNumbers s).

Section Handlers.

Variable levels : gmap string LevelData.

(** [resetSelection]. *)
Definition resetSelection : R unit :=
  setSelectedNumber1 None ;;
  setSelectedOperation None ;;
  setSelectedNumber2 None ;;
  setInvalidOperation false.

(** The effect on [level]: load the puzzle of the level.  [s] holds the
    cells of the render the effect belongs to. *)
Definition puzzleEffect (now : Z) (s : Session) : R unit :=
  let puzzle := GameLogic.generatePuzzle levels now (level s) in
  loaded <- newArray (numbers puzzle) ;;
  setTargetNumber (target puzzle) ;;
  setAvailableNumbers loaded ;;
  setInitialGridSize (Z.of_nat (length (numbers puzzle))) ;;
  copy <- newArray (numbers puzzle) ;;
  setOriginalPuzzle (Some {| target := target puzzle; numbers := elems copy |}) ;;
  resetSelection ;;
  setGameWon false ;;
  setShowLevelComplete false ;;
  setGameHistory (fun _ => []).

(** The effect on [availableNumbers] and [targetNumber]: the win check. *)
Definition winEffect (s : Session) : R unit :=
  if GameLogic.isGameWon (tiles s) (targetNumber s) then
    setGameWon true ;;
    setTimeout ShowLevelCompleteTimer
  else ret tt.

(** [performCalculation] of the screen; [now] and [random] are what
    [Date.now()] and [Math.random()] print as. *)
Definition performCalculation (s : Session) (now : Z) (random : string)
    (num1Obj : NumberObject) (operation : Operation) (num2Obj : NumberObject)
  : R unit :=
  let num1 := value num1Obj in
  let num2 := value num2Obj in
  if bool_decide (operation = OpDiv)
     && negb (GameLogic.validateDivision num1 num2) then
    setInvalidOperation true ;;
    setTimeout InvalidOperationTimer
  else
    match GameLogic.performCalculation num1 operation num2 with
    | None => ret tt
    | Some result =>
        saved <- newArray (tiles s) ;;
        setGameHistory (fun prev =>
          prev ++ [{| saved_numbers := saved;
                      gridSize := initialGridSize s;
                      num1 := num1Obj;
                      num2 := num2Obj;
                      operation := operation;
                      result := result |}]) ;;
        let kept :=
          filter (fun n => id n ≠ id num1Obj ∧ id n ≠ id num2Obj) (tiles s) in
        let pushed :=
          if result >? 0
          then [{| value := result;
                   id := (toString now ++ "_" ++ random)%string;
                   position := position num1Obj |}]
          else [] in
        newNumbers <- newArray (kept ++ pushed) ;;
        setAvailableNumbers newNumbers ;;
        resetSelection
    end.

(** [selectNumber]. *)
Definition selectNumber (s : Session) (now : Z) (random : string)
    (numberObj : NumberObject) : R unit :=
  match selectedNumber1 s with
  | None => setSelectedNumber1 (Some numberObj)
  | Some first =>
      match selectedOperation s with
      | None => setSelectedNumber1 (Some numberObj)
      | Some op =>
          if bool_decide (selectedNumber2 s = None)
             && bool_decide (id numberObj ≠ id first) then
            setSelectedNumber2 (Some numberObj) ;;
            performCalculation s now random first op numberObj
          else ret tt
      end
  end.

(** [selectOperation]. *)
Definition selectOperation (s : Session) (operation : Operation) : R unit :=
  match selectedNumber1 s with
  | Some _ =>
      setSelectedOperation (Some operation) ;;
      setSelectedNumber2 None
  | None => ret tt
  end.

(** [undoLastMove]: [last] is [None] exactly when the history is empty,
    and [removelast] is [slice(0, -1)]. *)
Definition undoLastMove (s : Session) : R unit :=
  match last (gameHistory s) with
  | None => ret tt
  | Some lastState =>
      setAvailableNumbers (saved_numbers lastState) ;;
      setInitialGridSize (gridSize lastState) ;;
      setGameHistory (fun prev => removelast prev) ;;
      resetSelection
  end.

(** [restartLevel]. *)
Definition restartLevel (s : Session) (now : Z) : R unit :=
  match originalPuzzle s with
  | Some original =>
      setTargetNumber (target original) ;;
      copy <- newArray (numbers original) ;;
      setAvailableNumbers copy ;;
      setInitialGridSize (Z.of_nat (length (numbers original)))
  | None =>
      let puzzle := GameLogic.generatePuzzle levels now (level s) in
      loaded <- newArray (numbers puzzle) ;;
      setTargetNumber (target puzzle) ;;
      setAvailableNumbers loaded ;;
      setInitialGridSize (Z.of_nat (length (numbers puzzle))) ;;
      copy <- newArray (numbers puzzle) ;;
      setOriginalPuzzle
        (Some {| target := target puzzle; numbers := elems copy |})
  end ;;
  resetSelection ;;
  setGameWon false ;;
  setShowLevelComplete false ;;
  setGameHistory (fun _ => []).

(** The callbacks of the two timers. *)
Definition timerCallback (t : Timer) : R unit :=
  match t with
  | ShowLevelCompleteTimer => setShowLevelComplete true
  | InvalidOperationTimer => setInvalidOperation false ;; resetSelection
  end.

(** *** Rendering and events *)

(** The slots of the rendered grid. *)
Definition displayGrid (s : Session) : list (option NumberObject) :=
  fst (GameLogic.createDisplayGrid (tiles s) (initialGridSize s)).

(** What the player and the clock do to the screen.  A number button is
    named by its slot in the grid. *)
Inductive Event : Type :=
| PressNumber (slot : nat) (now : Z) (random : string)
| PressOperation (operation : Operation)
| PressUndo
| PressClear
| PressReset (now : Z)
| TimerFires (t : Timer).

(** Remove the first pending occurrence of a timer. *)
Fixpoint removeTimer (t : Timer) (l : list Timer) : list Timer :=
  match l with
  | [] => []
  | t' :: l' => if bool_decide (t' = t) then l' else t' :: removeTimer t l'
  end.

Definition clearTimer (t : Timer) : R unit :=
  fun r => (tt, {| session := session r;
                   pendingTimers := removeTimer t (pendingTimers r);
                   nextAddr := nextAddr r |}).

(** The handler an event runs, with the guards of the pressed component
    ([NumberButton], [OperationButton.handlePress], [ActionButtons]). *)
Definition handle (s : Session) (pending : list Timer) (e : Event) : R unit :=
  match e with
  | PressNumber slot now random =>
      match displayGrid s !! slot with
      | Some (Some numberObj) => selectNumber s now random numberObj
      | _ => ret tt
      end
  | PressOperation operation =>
      let isDisabled := bool_decide (selectedNumber1 s = None) in
      if negb isDisabled then selectOperation s operation else ret tt
  | PressUndo =>
      let canUndo := bool_decide (gameHistory s ≠ []) in
      if canUndo then undoLastMove s else ret tt
  | PressClear =>
      let canClear := bool_decide (selectedNumber1 s ≠ None) in
      if canClear then resetSelection else ret tt
  | PressReset now => restartLevel s now
  | TimerFires t =>
      if bool_decide (t ∈ pending)
      then clearTimer t ;; timerCallback t
      else ret tt
  end.

(** The dependencies of the win check: the array by address, the target
    by value. *)
Definition winDeps (s : Session) : nat * Z :=
  (addr (availableNumbers s), targetNumber s).

(** The win check as it follows a commit: the effect runs when one of
    its dependencies differs from the commit [before], with the cells of
    the new commit.  Its own updates leave the dependencies alone, so
    the render they cause runs no effect. *)
Definition winCheckAfter (before : Session) : R unit :=
  fun r =>
    let current := session r in
    (if bool_decide (winDeps current ≠ winDeps before)
     then winEffect current else ret tt) r.

(** The commit an event leads to: its handler has run, no effect yet. *)
Definition commit (r : Runtime) (e : Event) : Runtime :=
  exec (handle (session r) (pendingTimers r) e) r.

(** One event, handler and effects.  No handler of an event writes
    [level] (lemma [commit_level]), so of the effects only the win check
    can follow. *)
Definition step (r : Runtime) (e : Event) : Runtime :=
  exec (winCheckAfter (session r)) (commit r e).

Definition run (r : Runtime) (events : list Event) : Runtime :=
  foldl step r events.

(** The first render: [useState] initial values. *)
Definition initialSession (initialLevel : option Z) : Session :=
  {| level := match initialLevel with
              | Some l => if l =? 0 then 1 else l
              | None => 1
              end;
     targetNumber := 0;
     availableNumbers := {| addr := 0; elems := [] |};
     initialGridSize := 6;
     originalPuzzle := None;
     selectedNumber1 := None;
     selectedOperation := None;
     selectedNumber2 := None;
     gameWon := false;
     showLevelComplete := false;
     invalidOperation := false;
     gameHistory := [] |}.

(** Mounting the screen: the first render, the effects of the mount (the
    effect on the [initialLevel] prop writes the level the cell already
    holds; the puzzle is loaded; the win check sees no tile), then the win
    check of the commit that holds the puzzle. *)
Definition mount (initialLevel : option Z) (now : Z) : Runtime :=
  let first := initialSession initialLevel in
  let r0 := {| session := first; pendingTimers := []; nextAddr := 1 |} in
  let r1 := exec (puzzleEffect now first ;; winEffect first) r0 in
  exec (winCheckAfter first) r1.

(** The puzzle a mounted screen plays. *)
Definition mountedPuzzle (initialLevel : option Z) (now : Z) : Puzzle :=
  GameLogic.generatePuzzle levels now (level (initialSession initialLevel)).

(** *** Level progression *)

(** The screen together with its collaborators: the store behind the
    storage utilities and the levels [onLevelComplete] has been called
    with. *)
Record App (S : Type) : Type := mkApp {
  screen : Runtime;
  storage : S;
  levelCompleteCalls : list Z
}.
Arguments mkApp {S}.
Arguments screen {S}.
Arguments storage {S}.
Arguments levelCompleteCalls {S}.

(** [nextLevel]: the two awaited storage calls of the [try] block either
    both resolve, and the block goes on, or one rejects, and the [catch]
    block runs. *)
Definition nextLevel {S} `{Storage.StorageUtils S} (s : Session)
    (app : App S) : App S :=
  let attempt :=
    Storage.await (Storage.addCompletedLevel (level s)) (fun _ =>
      let newLevel := level s + 1 in
      Storage.await (Storage.setCurrentLevel newLevel) (fun _ =>
        Storage.resolve newLevel)) in
  match attempt (storage app) with
  | (store, inr newLevel) =>
      {| screen := exec (setLevel newLevel) (screen app);
         storage := store;
         levelCompleteCalls := levelCompleteCalls app ++ [newLevel] |}
  | (store, inl error) =>
      let newLevel := level s + 1 in
      {| screen := exec (setLevel newLevel) (screen app);
         storage := store;
         levelCompleteCalls := levelCompleteCalls app ++ [newLevel] |}
  end.

(** The effects that follow a commit in general.  [before] holds the
    cells of the previous commit; the effect on [level] and the win check
    run when a dependency of theirs has changed, both with the cells of
    the commit they belong to, and the commit their updates cause is
    examined for the win check once more. *)
Definition effectsAfter (now : Z) (before : Session) : R unit :=
  fun r =>
    let current := session r in
    let r1 :=
      exec ((if bool_decide (level current ≠ level before)
             then puzzleEffect now current else ret tt) ;;
            (if bool_decide (winDeps current ≠ winDeps before)
             then winEffect current else ret tt)) r in
    (tt, exec (winCheckAfter current) r1).

(** The press of the button of the completion dialog: [nextLevel], then
    the effects of the commit. *)
Definition pressNextLevel {S} `{Storage.StorageUtils S} (now : Z)
    (app : App S) : App S :=
  let before := session (screen app) in
  let app1 := nextLevel before app in
  {| screen := exec (effectsAfter now before) (screen app1);
     storage := storage app1;
     levelCompleteCalls := levelCompleteCalls app1 |}.

End Handlers.

Arguments screen {S}.
Arguments storage {S}.
Arguments levelCompleteCalls {S}.

(** *** Notions used by the properties *)

(** The conditions under which the press of the number button at [slot]
    reduces [first] and [second] by [op] to [res]: the selection holds a
    first tile and an operation, the button shows another tile, and the
    calculation is accepted. *)
Record Reduction (s : Session) (slot : nat) (first : NumberObject)
    (op : Operation) (second : NumberObject) (res : Z) : Prop := {
  red_first : selectedNumber1 s = Some first;
  red_operation : selectedOperation s = Some op;
  red_second : selectedNumber2 s = None;
  red_slot : displayGrid s !! slot = Some (Some second);
  red_distinct : id second ≠ id first;
  red_result : GameLogic.performCalculation (value first) op (value second)
               = Some res
}.

(** The tile a reduction pushes. *)
Definition resultTile (now : Z) (random : string) (first : NumberObject)
    (res : Z) : NumberObject :=
  {| value := res;
     id := (toString now ++ "_" ++ random)%string;
     position := position first |}.

(** The cells a successful reduction commits. *)
Definition reduced (r : Runtime) (now : Z) (random : string)
    (first : NumberObject) (op : Operation) (second : NumberObject) (res : Z)
  : Session :=
  let s := session r in
  withInvalidOperation false
    (withSelectedNumber2 None
       (withSelectedOperation None
          (withSelectedNumber1 None
             (withAvailableNumbers
                {| addr := Datatypes.S (nextAddr r);
                   elems :=
                     filter (fun n => id n ≠ id first ∧ id n ≠ id second)
                       (tiles s)
                     ++ (if res >? 0 then [resultTile now random first res]
                         else []) |}
                (withGameHistory
                   (gameHistory s
                    ++ [{| saved_numbers :=
                             {| addr := nextAddr r; elems := tiles s |};
                           gridSize := initialGridSize s;
                           num1 := first;
                           num2 := second;
                           operation := op;
                           result := res |}])
                   (withSelectedNumber2 (Some second) s)))))).

(** The cells by value: the addresses of the arrays are forgotten. *)
Definition contents (s : Session) : Session :=
  withGameHistory
    (map (fun g => {| saved_numbers :=
                        {| addr := 0; elems := elems (saved_numbers g) |};
                      gridSize := gridSize g;
                      num1 := num1 g;
                      num2 := num2 g;
                      operation := operation g;
                      result := result g |}) (gameHistory s))
    (withAvailableNumbers {| addr := 0; elems := tiles s |} s).

(** The addresses of the arrays kept in the history. *)
Definition savedAddrs (s : Session) : list nat :=
  map (fun g => addr (saved_numbers g)) (gameHistory s).

(** What holds of the screen while it plays the puzzle [p]: the original
    and the target are those of [p], a selected first tile is in play, an
    operation is only selected together with a first tile, and the array in
    play and the saved arrays are distinct allocated arrays. *)
Record Inv (p : Puzzle) (r : Runtime) : Prop := {
  inv_original : originalPuzzle (session r) = Some p;
  inv_target : targetNumber (session r) = target p;
  inv_selected : forall t, selectedNumber1 (session r) = Some t ->
                           t ∈ tiles (session r);
  inv_operation : selectedOperation (session r) ≠ None ->
                  selectedNumber1 (session r) ≠ None;
  inv_current : (addr (availableNumbers (session r)) < nextAddr r)%nat;
  inv_saved : Forall (fun a => (a < nextAddr r)%nat) (savedAddrs (session r));
  inv_distinct : NoDup (addr (availableNumbers (session r))
                        :: savedAddrs (session r))
}.

(** The won flag is latched: a tile equal to the target implies it. *)
Definition Latched (s : Session) : Prop :=
  GameLogic.isGameWon (tiles s) (targetNumber s) = true -> gameWon s = true.

Definition nonNegative (l : list NumberObject) : Prop :=
  Forall (fun t => 0 <= value t) l.

(** No tile in play, saved or original is negative. *)
Record NonNeg (s : Session) : Prop := {
  nn_tiles : nonNegative (tiles s);
  nn_saved : Forall (fun g => nonNegative (elems (saved_numbers g)))
               (gameHistory s);
  nn_original : forall p, originalPuzzle s = Some p -> nonNegative (numbers p)
}.

End GameScreen.

(** ** Queries of the engine *)

(** The functions of the engine that answer questions about a position:
    which tiles are selected, whether a move is valid, what to try. *)
Module GameLogicQueries.

(** [SelectionState]. *)
Inductive SelectionState : Type :=
| Available   (* 'available' *)
| Selected1   (* 'selected1' *)
| Selected2.  (* 'selected2' *)

(** [selected && numberObj.id === selected.id]. *)
Definition isSelected (numberObj : NumberObject)
    (selected : option NumberObject) : bool :=
  match selected with
  | Some tile => bool_decide (id numberObj = id tile)
  | None => false
  end.

(** [getSelectionState]. *)
Definition getSelectionState (numberObj : NumberObject)
    (selectedNumber1 selectedNumber2 : option NumberObject) : SelectionState :=
  if isSelected numberObj selectedNumber1 then Selected1
  else if isSelected numberObj selectedNumber2 then Selected2
  else Available.

(** [getDifficultyScore]: [Math.ceil(levelNum / 5)] is the integer
    ceiling of the quotient. *)
Definition getDifficultyScore (levelNum : Z) : Z :=
  Z.min (- ((- levelNum) / 5)) 10.

(** [getOperationSymbol]. *)
Definition getOperationSymbol (operation : Operation) : string :=
  match operation with
  | OpAdd => "+"
  | OpSub => "−"
  | OpMul => "×"
  | OpDiv => "÷"
  end.

(** [validateMove]. *)
Definition validateMove (selectedNumber1 : option NumberObject)
    (operation : option Operation) (selectedNumber2 : option NumberObject)
  : bool :=
  match selectedNumber1, operation, selectedNumber2 with
  | Some first, Some op, Some second =>
      if bool_decide (id first = id second) then false
      else if bool_decide (op = OpDiv)
              && negb (GameLogic.validateDivision (value first) (value second))
      then false
      else true
  | _, _, _ => false
  end.

(** The state of the search of [generateHint]: the best hint so far and
    its distance to the target; no distance stands for [Infinity]. *)
Definition HintState : Type := option string * option Z.

(** [difference < bestDifference]. *)
Definition closer (difference : Z) (bestDifference : option Z) : bool :=
  match bestDifference with
  | Some best => difference <? best
  | None => true
  end.

(** The text of a hint. *)
Definition hintText (num1 : NumberObject) (op : Operation) (num2 : NumberObject)
    (result : Z) : string :=
  ("Try " ++ toString (value num1) ++ " " ++ getOperationSymbol op ++ " "
     ++ toString (value num2) ++ " = " ++ toString result)%string.

(** The body of the innermost loop of [generateHint]. *)
Definition tryOperation (targetNumber : Z) (num1 num2 : NumberObject)
    (state : HintState) (op : Operation) : HintState :=
  match GameLogic.performCalculation (value num1) op (value num2) with
  | Some result =>
      let difference := Z.abs (result - targetNumber) in
      if closer difference (snd state)
      then (Some (hintText num1 op num2 result), Some difference)
      else state
  | None => state
  end.

Definition operations : list Operation := [OpAdd; OpSub; OpMul; OpDiv].

(** [generateHint]: the loops over [i], over [j] from [i + 1] and over
    the operations are folds over the indices. *)
Definition generateHint (availableNumbers : list NumberObject)
    (targetNumber : Z) : option string :=
  if (length availableNumbers <? 2)%nat then None
  else
    let n := length availableNumbers in
    fst (foldl (fun state i =>
                  foldl (fun state j =>
                           match availableNumbers !! i, availableNumbers !! j with
                           | Some num1, Some num2 =>
                               foldl (tryOperation targetNumber num1 num2)
                                 state operations
                           | _, _ => state
                           end)
                    state (seq (S i) (n - S i)))
           (None, None) (seq 0 n)).

(** A move the search of [generateHint] tries: two tiles and an
    operation. *)
Definition Move : Type := NumberObject * NumberObject * Operation.

(** The moves in the order the loops of [generateHint] reach them. *)
Definition movesOf (l : list NumberObject) : list Move :=
  i ← seq 0 (length l);
  j ← seq (S i) (length l - S i);
  match l !! i, l !! j with
  | Some num1, Some num2 => (fun op => (num1, num2, op)) <$> operations
  | _, _ => []
  end.

Definition tryMove (targetNumber : Z) (state : HintState) (m : Move)
  : HintState :=
  tryOperation targetNumber m.1.1 m.1.2 state m.2.

(** The distance to the target of the result of a move. *)
Definition distance (targetNumber : Z) (m : Move) : option Z :=
  (fun result => Z.abs (result - targetNumber))
    <$> GameLogic.performCalculation (value m.1.1) m.2 (value m.1.2).

(** The search state after the moves [tried]: nothing while no move
    computes, else a computing move among them, no farther from the target
    than any of them. *)
Definition Best (targetNumber : Z) (tried : list Move) (state : HintState)
  : Prop :=
  match state with
  | (None, None) => forall m, m ∈ tried -> distance targetNumber m = None
  | (Some text, Some d) =>
      exists m result,
        m ∈ tried
        /\ GameLogic.performCalculation (value m.1.1) m.2 (value m.1.2)
           = Some result
        /\ text = hintText m.1.1 m.2 m.1.2 result
        /\ d = Z.abs (result - targetNumber)
        /\ forall m' d', m' ∈ tried -> distance targetNumber m' = Some d' ->
                         d <= d'
  | _ => False
  end.

(** The [totalPositions] of [createDisplayGrid]: the number of slots it
    lays out. *)
Definition totalPositions (initialGridSize : Z) : Z :=
  let cols := cols (GameLogic.getGridDimensions initialGridSize) in
  cols * (if cols =? 2 then 2
          else if cols =? 3 then GameLogic.ceilThird initialGridSize else 3).

End GameLogicQueries.

(** ** Queries of the storage service *)

Module StorageQueries.

Section Service.

Context {S : Type} `{Storage.Backend S}.

(** [StorageService.getHighestCompletedLevel]: [Math.max] of a list that
    is not empty is its greatest element. *)
Definition service_getHighestCompletedLevel : Storage.Async S Z :=
  Storage.tryCatch
    (Storage.await Storage.service_getCompletedLevels (fun completed =>
       Storage.resolve (match completed with
                        | first :: rest => foldl Z.max first rest
                        | [] => 0
                        end)))
    (fun _ => Storage.resolve 0).

(** [StorageService.isLevelCompleted]. *)
Definition service_isLevelCompleted (level : Z) : Storage.Async S bool :=
  Storage.tryCatch
    (Storage.await Storage.service_getCompletedLevels (fun completed =>
       Storage.resolve (bool_decide (level ∈ completed))))
    (fun _ => Storage.resolve false).

End Service.

(** What the service relies on in its backend: a read leaves the store
    as it is, a write that resolves is what the next read of the key
    returns, it leaves the other keys alone, and a written list parses
    back and is not the empty text. *)
Class LawfulBackend (S : Type) `{Storage.Backend S} : Prop := {
  getItem_keeps : forall key st, (Storage.getItem key st).1 = st;
  getItem_setItem : forall key text st st',
    Storage.setItem key text st = (st', inr tt) ->
    (Storage.getItem key st').2 = inr (Some text);
  getItem_setItem_other : forall key other text st st',
    Storage.setItem key text st = (st', inr tt) -> other ≠ key ->
    (Storage.getItem other st').2 = (Storage.getItem other st).2;
  JSON_parse_stringify : forall l,
    Storage.JSON_parse (Storage.JSON_stringify l) = Some l;
  JSON_stringify_nonempty : forall l, Storage.JSON_stringify l ≠ ""%string
}.

(** A text without a comma. *)
Fixpoint noComma (text : string) : bool :=
  match text with
  | EmptyString => true
  | String c rest => negb (Ascii.eqb c ","%char) && noComma rest
  end.

End StorageQueries.

(** ** Notions of play *)

Module Play.

Import GameScreen.

(** The boards of a session from the oldest saved one to the one in play. *)
Definition boards (s : Session) : list (list NumberObject) :=
  map (fun g => elems (saved_numbers g)) (gameHistory s) ++ [tiles s].

(** The grid sizes that go with the boards. *)
Definition grids (s : Session) : list Z :=
  map gridSize (gameHistory s) ++ [initialGridSize s].

(** The tiles a reduction leaves in play. *)
Definition afterReduction (l : list NumberObject) (now : Z) (random : string)
    (first second : NumberObject) (res : Z) : list NumberObject :=
  filter (fun n => id n ≠ id first ∧ id n ≠ id second) l
  ++ (if res >? 0 then [resultTile now random first res] else []).

(** A board whose tiles sit on distinct slots below [len]. *)
Definition wellPlaced (len : nat) (b : list NumberObject) : Prop :=
  NoDup (map position b) /\ forall t, t ∈ b -> 0 <= position t < Z.of_nat len.

(** The boards of a session form a stack over the original board: the
    original lies at the bottom, every board fits the grid of the
    original, and a board at depth [i] has lost at least [i] tiles. *)
Record Stacked (p : Puzzle) (s : Session) : Prop := {
  st_grids : Forall (fun n => n = Z.of_nat (length (numbers p))) (grids s);
  st_bottom : head (boards s) = Some (numbers p);
  st_depth : forall (i : nat) b,
      boards s !! i = Some b -> (length b + i <= length (numbers p))%nat;
  st_placed : Forall (wellPlaced (length (numbers p))) (boards s)
}.

(** A second tile is selected only while an invalid division blinks. *)
Definition Blinking (r : Runtime) : Prop :=
  forall second,
    selectedNumber2 (session r) = Some second ->
    invalidOperation (session r) = true
    /\ selectedOperation (session r) = Some OpDiv
    /\ InvalidOperationTimer ∈ pendingTimers r
    /\ exists first,
         selectedNumber1 (session r) = Some first
         /\ id second ≠ id first
         /\ GameLogic.validateDivision (value first) (value second) = false.

(** A won game opens the completion dialog: the dialog is shown or the
    timer that shows it is pending. *)
Definition Announced (r : Runtime) : Prop :=
  gameWon (session r) = true ->
  showLevelComplete (session r) = true
  \/ ShowLevelCompleteTimer ∈ pendingTimers r.

(** The ids the presses of number buttons would give to a result tile,
    from what [Date.now()] and [Math.random()] print as at each press. *)
Definition pressIds (events : list Event) : list string :=
  omap (fun e => match e with
                 | PressNumber _ now random =>
                     Some (toString now ++ "_" ++ random)%string
                 | _ => None
                 end) events.

(** The tiles of every board carry pairwise different ids among [used]. *)
Definition IdsIn (used : list string) (s : Session) : Prop :=
  Forall (fun b => NoDup (map id b) /\ forall t, t ∈ b -> id t ∈ used)
    (boards s).

End Play.

(** Modelled from the spec: the level table [levels.json] is not among the
    sources, and the definitions above take it as a parameter.  This
    sample table, used for concrete runs only, holds the puzzles of the
    first three scenarios of the specification as the levels 1 to 3; the
    levels 9999 and 10000 are not in it. *)
Definition sampleLevels : gmap string LevelData :=
  <["1"%string := {| level_target := 3; level_numbers := [6; 2; 4] |}]>
    (<["2"%string := {| level_target := 10; level_numbers := [5; 5] |}]>
       (<["3"%string := {| level_target := 7; level_numbers := [4; 6] |}]> ∅)).

(** * Properties of the engine *)

Import GameScreen.

(** ** Arithmetic *)

Lemma validateDivision_positive (a b : Z) :
  0 < a -> 0 < b ->
  GameLogic.validateDivision a b
  = bool_decide ((Z.max a b) mod (Z.min a b) = 0).
Proof.
  intros Ha Hb. unfold GameLogic.validateDivision.
  destruct (Z.eqb_spec b 0) as [->|_]; [lia|].
  rewrite Z.rem_mod_nonneg by lia.
  destruct (Z.eqb_spec (Z.max a b `mod` Z.min a b) 0) as [E|E].
  - by rewrite bool_decide_eq_true_2.
  - by rewrite bool_decide_eq_false_2.
Qed.

(** C2.  For positive integers [a] and [b], [validateDivision a b] holds
    exactly when the larger is a multiple of the smaller; when it holds,
    [performCalculation] with ['/'] returns their exact quotient, and when
    it does not, [null].  Verdict and result do not depend on the order
    of the operands. *)
Theorem division_exact_and_symmetric (a b : Z) :
  0 < a -> 0 < b ->
  (GameLogic.validateDivision a b = true <-> (Z.max a b) mod (Z.min a b) = 0)
  /\ (GameLogic.validateDivision a b = true ->
      GameLogic.performCalculation a OpDiv b = Some (Z.max a b / Z.min a b)
      /\ (Z.max a b / Z.min a b) * Z.min a b = Z.max a b)
  /\ (GameLogic.validateDivision a b = false ->
      GameLogic.performCalculation a OpDiv b = None)
  /\ GameLogic.validateDivision b a = GameLogic.validateDivision a b
  /\ GameLogic.performCalculation b OpDiv a
     = GameLogic.performCalculation a OpDiv b.
Proof.
  intros Ha Hb.
  assert (Hsym : GameLogic.validateDivision b a
                 = GameLogic.validateDivision a b).
  { rewrite !validateDivision_positive by lia.
    by rewrite (Z.max_comm b a), (Z.min_comm b a). }
  split; [|split; [|split; [|split]]].
  - rewrite validateDivision_positive by lia. apply bool_decide_eq_true.
  - intros Hvalid. split.
    + unfold GameLogic.performCalculation. rewrite Hvalid. cbn.
      by rewrite Z.quot_div_nonneg by lia.
    + rewrite validateDivision_positive in Hvalid by lia.
      apply bool_decide_eq_true_1 in Hvalid.
      apply Z.div_exact in Hvalid; lia.
  - intros Hinvalid. unfold GameLogic.performCalculation. by rewrite Hinvalid.
  - exact Hsym.
  - unfold GameLogic.performCalculation. rewrite Hsym.
    by rewrite (Z.max_comm b a), (Z.min_comm b a).
Qed.

Lemma performCalculation_div_valid (a b res : Z) :
  GameLogic.performCalculation a OpDiv b = Some res ->
  GameLogic.validateDivision a b = true.
Proof.
  unfold GameLogic.performCalculation.
  destruct (GameLogic.validateDivision a b); [done | discriminate].
Qed.

Lemma performCalculation_nonneg (a : Z) (op : Operation) (b res : Z) :
  0 <= a -> 0 <= b ->
  GameLogic.performCalculation a op b = Some res -> 0 <= res.
Proof.
  intros Ha Hb. destruct op; cbn; try (intros [= <-]; nia).
  unfold GameLogic.performCalculation.
  destruct (GameLogic.validateDivision a b); [|discriminate].
  cbn. intros [= <-].
  destruct (Z.eq_dec (Z.min a b) 0) as [E|E].
  - rewrite E. by destruct (Z.max a b).
  - apply Z.quot_pos; lia.
Qed.

(** ** Puzzle resolution *)

(** C7.  A level that the level table does not hold resolves to the
    fallback puzzle: the values 2, 3, 4, 5 each raised by
    [levelNum % 5], at the positions 0 to 3, with the sum of the first two
    values as target, whatever the clock reads.  For level 9999 these are
    the tiles 6, 7, 8, 9 and the target 13. *)
Theorem fallback_puzzle (levels : gmap string LevelData) (now levelNum : Z) :
  levels !! toString levelNum = None ->
  let puzzle := GameLogic.generatePuzzle levels now levelNum in
  let offset := Z.rem levelNum 5 in
  map value (numbers puzzle) = map (fun v => v + offset) [2; 3; 4; 5]
  /\ map position (numbers puzzle) = [0; 1; 2; 3]
  /\ target puzzle = (2 + offset) + (3 + offset)
  /\ (0 <= levelNum -> offset = levelNum mod 5)
  /\ (forall now',
        let other := GameLogic.generatePuzzle levels now' levelNum in
        map value (numbers other) = map value (numbers puzzle)
        /\ map position (numbers other) = map position (numbers puzzle)
        /\ target other = target puzzle)
  /\ (levelNum = 9999 ->
        map value (numbers puzzle) = [6; 7; 8; 9] /\ target puzzle = 13).
Proof.
  intros Hmissing puzzle offset.
  assert (Hp : forall t, GameLogic.generatePuzzle levels t levelNum
                         = GameLogic.createFallbackPuzzle t levelNum).
  { intros t. unfold GameLogic.generatePuzzle. by rewrite Hmissing. }
  subst puzzle. rewrite Hp. cbn.
  split; [reflexivity|]. split; [reflexivity|]. split; [reflexivity|].
  split; [|split].
  - intros Hpos. apply Z.rem_mod_nonneg; lia.
  - intros now'. rewrite Hp. cbn. by repeat split.
  - intros ->. by split.
Qed.

(** ** The display grid *)

Lemma placeNumber_slot (total : Z) (grid : list (option NumberObject))
    (n : NumberObject) (i : nat) (t : NumberObject) :
  GameLogic.placeNumber total grid n !! i = Some (Some t) ->
  t = n \/ grid !! i = Some (Some t).
Proof.
  unfold GameLogic.placeNumber.
  destruct (position n <? total); [|by right].
  destruct (0 <=? position n); [|by right].
  destruct (decide (i = Z.to_nat (position n))) as [->|Hne].
  - intros H. destruct (decide (Z.to_nat (position n) < length grid)%nat).
    + rewrite list_lookup_insert_eq in H by done. left. congruence.
    + rewrite list_insert_ge in H by lia. by right.
  - rewrite list_lookup_insert_ne by done. by right.
Qed.

Lemma foldl_placeNumber_slot (total : Z) (l : list NumberObject) :
  forall (grid : list (option NumberObject)) (i : nat) (t : NumberObject),
  foldl (GameLogic.placeNumber total) grid l !! i = Some (Some t) ->
  t ∈ l \/ grid !! i = Some (Some t).
Proof.
  induction l as [|n l IH]; intros grid i t H; cbn in H.
  - by right.
  - apply IH in H as [H|H].
    + left. by apply list_elem_of_further.
    + apply placeNumber_slot in H as [->|H].
      * left. apply list_elem_of_here.
      * by right.
Qed.

(** A number button shows a tile in play. *)
Lemma displayGrid_member (s : Session) (slot : nat) (t : NumberObject) :
  displayGrid s !! slot = Some (Some t) -> t ∈ tiles s.
Proof.
  unfold displayGrid, GameLogic.createDisplayGrid. cbn. intros H.
  apply foldl_placeNumber_slot in H as [H|H]; [done|].
  apply lookup_replicate in H as [H _]. discriminate.
Qed.

Lemma isGameWon_spec (l : list NumberObject) (tgt : Z) :
  GameLogic.isGameWon l tgt = true <-> exists t, t ∈ l /\ value t = tgt.
Proof.
  unfold GameLogic.isGameWon. rewrite existsb_exists. split.
  - intros (t & Hin & Heq). exists t. split; [by apply list_elem_of_In|lia].
  - intros (t & Hin & Heq). exists t. split; [by apply list_elem_of_In|lia].
Qed.

(** ** Lists of addresses and of tiles *)

Lemma last_split {A} (l : list A) (x : A) :
  last l = Some x -> l = removelast l ++ [x].
Proof.
  intros H. apply last_Some in H as [l' ->].
  by rewrite removelast_last.
Qed.

Lemma saved_push (next : nat) (l : list nat) :
  Forall (fun a => (a < next)%nat) l ->
  Forall (fun a => (a < S (S next))%nat) (l ++ [next]).
Proof.
  intros H. rewrite Forall_app. split.
  - eapply Forall_impl; [exact H|]. cbn. lia.
  - apply Forall_singleton. lia.
Qed.

Lemma distinct_push (cur next : nat) (l : list nat) :
  Forall (fun a => (a < next)%nat) l ->
  NoDup (cur :: l) ->
  NoDup (S next :: l ++ [next]).
Proof.
  intros Hlt Hd. rewrite Forall_forall in Hlt.
  apply NoDup_cons in Hd as [_ Hd].
  apply NoDup_cons. split.
  - rewrite elem_of_app, list_elem_of_singleton.
    intros [Hin|?]; [apply Hlt in Hin|]; lia.
  - apply NoDup_app. split; [done|]. split; [|apply NoDup_singleton].
    intros a Hin Ha. apply list_elem_of_singleton in Ha. subst a.
    apply Hlt in Hin. lia.
Qed.

Lemma distinct_pop (cur a : nat) (l : list nat) :
  NoDup (cur :: l ++ [a]) -> NoDup (a :: l).
Proof.
  intros Hd. apply NoDup_cons in Hd as [_ Hd].
  apply NoDup_app in Hd as (Hl & Hdisj & _).
  apply NoDup_cons. split; [|done].
  intros Hin. apply (Hdisj a Hin). apply list_elem_of_here.
Qed.

Lemma saved_pop (next a : nat) (l : list nat) :
  Forall (fun b => (b < next)%nat) (l ++ [a]) ->
  (a < next)%nat /\ Forall (fun b => (b < next)%nat) l.
Proof. rewrite Forall_app, Forall_singleton. tauto. Qed.

(** Counting the tiles a reduction keeps. *)

Lemma filter_ids_absent (l : list NumberObject) (a b : string) :
  a ∉ map id l -> b ∉ map id l ->
  filter (fun n => id n ≠ a ∧ id n ≠ b) l = l.
Proof.
  induction l as [|n l IH]; intros Ha Hb; [done|].
  cbn in Ha, Hb. rewrite not_elem_of_cons in Ha, Hb.
  destruct Ha as [Ha1 Ha2], Hb as [Hb1 Hb2].
  rewrite filter_cons_True by (split; congruence).
  by rewrite IH.
Qed.

Lemma filter_ids_one (l : list NumberObject) (a b : string) :
  NoDup (map id l) -> a ∉ map id l -> b ∈ map id l ->
  (length (filter (fun n => id n ≠ a ∧ id n ≠ b) l) + 1 = length l)%nat.
Proof.
  induction l as [|n l IH]; intros Hd Ha Hb; [by apply elem_of_nil in Hb|].
  cbn in Hd, Ha, Hb. apply NoDup_cons in Hd as [Hn Hd].
  rewrite not_elem_of_cons in Ha. destruct Ha as [Ha1 Ha2].
  destruct (decide (id n = b)) as [E|E].
  - rewrite filter_cons_False by tauto.
    rewrite filter_ids_absent by (done || by rewrite <- E). cbn. lia.
  - rewrite filter_cons_True by (split; congruence).
    apply elem_of_cons in Hb as [Hb|Hb]; [congruence|].
    cbn. rewrite <- (IH Hd Ha2 Hb). lia.
Qed.

Lemma filter_ids_swap (l : list NumberObject) (a b : string) :
  filter (fun n => id n ≠ a ∧ id n ≠ b) l
  = filter (fun n => id n ≠ b ∧ id n ≠ a) l.
Proof. apply list_filter_iff. tauto. Qed.

Lemma filter_ids_two (l : list NumberObject) (a b : string) :
  NoDup (map id l) -> a ∈ map id l -> b ∈ map id l -> a ≠ b ->
  (length (filter (fun n => id n ≠ a ∧ id n ≠ b) l) + 2 = length l)%nat.
Proof.
  induction l as [|n l IH]; intros Hd Ha Hb Hab; [by apply elem_of_nil in Ha|].
  cbn in Hd, Ha, Hb. apply NoDup_cons in Hd as [Hn Hd].
  destruct (decide (id n = a)) as [Ea|Ea];
    [|destruct (decide (id n = b)) as [Eb|Eb]].
  - rewrite filter_cons_False by tauto.
    apply elem_of_cons in Hb as [Hb|Hb]; [congruence|].
    cbn. rewrite <- (filter_ids_one l a b) by (done || by rewrite <- Ea). lia.
  - rewrite filter_cons_False by tauto.
    apply elem_of_cons in Ha as [Ha|Ha]; [congruence|].
    cbn. rewrite filter_ids_swap.
    rewrite <- (filter_ids_one l b a) by (done || by rewrite <- Eb). lia.
  - rewrite filter_cons_True by (split; congruence).
    apply elem_of_cons in Ha as [Ha|Ha]; [congruence|].
    apply elem_of_cons in Hb as [Hb|Hb]; [congruence|].
    cbn. rewrite <- (IH Hd Ha Hb Hab). lia.
Qed.

Lemma nonNegative_filter (P : NumberObject -> Prop)
    `{!forall n, Decision (P n)} (l : list NumberObject) :
  nonNegative l -> nonNegative (filter P l).
Proof.
  unfold nonNegative. rewrite !Forall_forall. intros Hl t Ht.
  apply list_elem_of_filter in Ht as [_ Ht]. by apply Hl.
Qed.

(** ** The session *)

(** Unfold an event down to the updates of its handler. *)
Ltac unfold_handlers :=
  unfold step, commit, handle, selectNumber, performCalculation,
    selectOperation, undoLastMove, restartLevel, timerCallback,
    resetSelection, winCheckAfter, winEffect in *.

(** Use what the case analysis has learnt about the cells. *)
Ltac recall :=
  repeat match goal with
         | H : ?x = Some _ |- context [?x] => rewrite H
         | H : ?x = None |- context [?x] => rewrite H
         end.

(** One field of [Inv] after a handler. *)
Ltac field :=
  cbn; unfold savedAddrs, tiles in *; cbn; recall; rewrite ?map_app; cbn;
  try done;
  try (intros; simplify_eq;
       eauto using displayGrid_member, saved_push, distinct_push,
         NoDup_singleton; fail);
  try lia.

(** Write the updates of the cells out as records. *)
Ltac expand_cells :=
  cbv beta iota delta
    [withLevel withTargetNumber withAvailableNumbers withInitialGridSize
     withOriginalPuzzle withSelectedNumber1 withSelectedOperation
     withSelectedNumber2 withGameWon withShowLevelComplete
     withInvalidOperation withGameHistory
     level targetNumber availableNumbers initialGridSize originalPuzzle
     selectedNumber1 selectedOperation selectedNumber2 gameWon
     showLevelComplete invalidOperation gameHistory tiles contents].

Lemma level_withGameWon (w : bool) (s : Session) :
  level (withGameWon w s) = level s.
Proof. reflexivity. Qed.

Lemma tiles_withGameWon (w : bool) (s : Session) :
  tiles (withGameWon w s) = tiles s.
Proof. reflexivity. Qed.

Section SessionProperties.

Variable levels : gmap string LevelData.

(** *** Commits and effects *)

(** No handler of an event writes the level. *)
Lemma commit_level (r : Runtime) (e : Event) :
  level (session (commit levels r e)) = level (session r).
Proof. destruct e; unfold_handlers; by repeat case_match. Qed.

(** Only the restart handler writes [false] to the won flag. *)
Lemma commit_keeps_won (r : Runtime) (e : Event) :
  (forall now, e ≠ PressReset now) ->
  gameWon (session (commit levels r e)) = gameWon (session r).
Proof.
  intros Hne. destruct e; unfold_handlers; try (by repeat case_match).
  by destruct (Hne now).
Qed.

(** The win check touches the won flag only. *)
Lemma winCheckAfter_cells (before : Session) (r : Runtime) :
  exists w, session (exec (winCheckAfter before) r) = withGameWon w (session r).
Proof.
  unfold winCheckAfter, winEffect, exec. cbn.
  repeat case_match; cbn.
  - by exists true.
  - exists (gameWon (session r)). by destruct (session r).
  - exists (gameWon (session r)). by destruct (session r).
Qed.

Lemma step_cells (r : Runtime) (e : Event) :
  exists w, session (step levels r e)
            = withGameWon w (session (commit levels r e)).
Proof. apply winCheckAfter_cells. Qed.

Lemma winCheckAfter_changed (before : Session) (r : Runtime) :
  winDeps (session r) ≠ winDeps before ->
  session (exec (winCheckAfter before) r)
  = withGameWon
      (GameLogic.isGameWon (tiles (session r)) (targetNumber (session r))
       || gameWon (session r))
      (session r).
Proof.
  intros Hne. unfold winCheckAfter, winEffect, exec. cbn.
  rewrite bool_decide_eq_true_2 by done.
  destruct (GameLogic.isGameWon _ _); cbn; [done|].
  by destruct (session r).
Qed.

Lemma winCheckAfter_same (before : Session) (r : Runtime) :
  winDeps (session r) = winDeps before ->
  exec (winCheckAfter before) r = r.
Proof.
  intros He. unfold winCheckAfter, exec. cbn.
  rewrite bool_decide_eq_false_2; [done|]. intros Hne. by apply Hne.
Qed.

Lemma commit_reduction (r : Runtime) (slot : nat) (now : Z) (random : string)
    (first : NumberObject) (op : Operation) (second : NumberObject) (res : Z) :
  Reduction (session r) slot first op second res ->
  commit levels r (PressNumber slot now random)
  = {| session := reduced r now random first op second res;
       pendingTimers := pendingTimers r;
       nextAddr := S (S (nextAddr r)) |}.
Proof.
  intros [H1 Hop H2 Hslot Hid Hres].
  unfold commit, handle. rewrite Hslot. unfold selectNumber.
  rewrite H1, Hop, H2. rewrite !bool_decide_eq_true_2 by done. cbn.
  unfold performCalculation. rewrite Hres.
  assert (Hvalid : bool_decide (op = OpDiv)
                   && negb (GameLogic.validateDivision (value first)
                              (value second))
                   = false).
  { destruct op; try done. cbn.
    by rewrite (performCalculation_div_valid _ _ _ Hres). }
  rewrite Hvalid. unfold reduced, resultTile. cbn.
  destruct (res >? 0); reflexivity.
Qed.

Lemma commit_undo (r : Runtime) (g : GameState) :
  last (gameHistory (session r)) = Some g ->
  session (commit levels r PressUndo)
  = withInvalidOperation false
      (withSelectedNumber2 None
         (withSelectedOperation None
            (withSelectedNumber1 None
               (withGameHistory (removelast (gameHistory (session r)))
                  (withInitialGridSize (gridSize g)
                     (withAvailableNumbers (saved_numbers g) (session r))))))).
Proof.
  intros Hlast. unfold commit, handle, undoLastMove. rewrite Hlast.
  rewrite bool_decide_eq_true_2; [reflexivity|].
  intros Hnil. by rewrite Hnil in Hlast.
Qed.

(** *** What holds while a puzzle is played *)

Lemma commit_Inv (p : Puzzle) (r : Runtime) (e : Event) :
  Inv p r -> Inv p (commit levels r e).
Proof.
  intros [Ho Ht Hs Hop Hc Hsv Hd].
  destruct e; unfold_handlers.
  - (* a number button *)
    repeat case_match; cbn; (constructor; field).
  - (* an operation button *)
    repeat case_match; cbn; (constructor; field).
  - (* undo *)
    case_match; [|constructor; field].
    destruct (last (gameHistory (session r))) as [g|] eqn:Hlast;
      [|constructor; field].
    unfold savedAddrs in *. apply last_split in Hlast.
    rewrite Hlast, map_app in Hsv, Hd. cbn in Hsv, Hd.
    apply saved_pop in Hsv as [Hg Hsv]. apply distinct_pop in Hd.
    cbn; (constructor; field).
  - (* clear *)
    repeat case_match; cbn; (constructor; field).
  - (* restart *)
    rewrite Ho. cbn. constructor; field.
  - (* a timer *)
    repeat case_match; cbn; (constructor; field).
Qed.

Lemma winCheckAfter_Inv (p : Puzzle) (before : Session) (r : Runtime) :
  Inv p r -> Inv p (exec (winCheckAfter before) r).
Proof.
  intros [Ho Ht Hs Hop Hc Hsv Hd]. unfold_handlers. unfold exec. cbn.
  repeat case_match; cbn; (constructor; field).
Qed.

Lemma step_Inv (p : Puzzle) (r : Runtime) (e : Event) :
  Inv p r -> Inv p (step levels r e).
Proof.
  intros H. unfold step. by apply winCheckAfter_Inv, commit_Inv.
Qed.

Lemma run_Inv (p : Puzzle) (events : list Event) :
  forall r, Inv p r -> Inv p (run levels r events).
Proof.
  induction events as [|e events IH]; intros r H; cbn; [done|].
  apply IH. by apply step_Inv.
Qed.

Lemma mount_Inv (initialLevel : option Z) (now : Z) :
  Inv (mountedPuzzle levels initialLevel now) (mount levels initialLevel now).
Proof.
  unfold mount, mountedPuzzle. apply winCheckAfter_Inv.
  unfold puzzleEffect, winEffect. cbn.
  set (p := GameLogic.generatePuzzle _ _ _). clearbody p. destruct p.
  cbn. constructor; field.
Qed.

(** While a puzzle is played an operation is selected only together
    with a first tile. *)
Lemma operation_needs_first_tile (initialLevel : option Z) (start : Z)
    (events : list Event) :
  let s := session (run levels (mount levels initialLevel start) events) in
  selectedOperation s ≠ None -> selectedNumber1 s ≠ None.
Proof. apply (inv_operation _ _ (run_Inv _ events _ (mount_Inv _ _))). Qed.

(** *** The won flag *)

(** A handler either leaves the array in play, the target and the won
    flag as they are, or changes what the win check depends on. *)
Lemma commit_deps (p : Puzzle) (r : Runtime) (e : Event) :
  Inv p r ->
  let s := session r in
  let c := session (commit levels r e) in
  winDeps c ≠ winDeps s
  \/ (availableNumbers c = availableNumbers s
      /\ targetNumber c = targetNumber s
      /\ gameWon c = gameWon s).
Proof.
  intros [Ho Ht Hs Hop Hc Hsv Hd]. cbn.
  destruct e; unfold_handlers.
  - repeat case_match; cbn; try (by right).
    all: left; unfold winDeps; cbn; intros [=]; lia.
  - repeat case_match; cbn; by right.
  - case_match; [|by right].
    destruct (last (gameHistory (session r))) as [g|] eqn:Hlast; [|by right].
    left. unfold winDeps. cbn. intros Heq.
    apply (f_equal fst) in Heq. cbn in Heq.
    unfold savedAddrs in Hd. apply last_split in Hlast.
    rewrite Hlast, map_app in Hd. cbn in Hd.
    apply NoDup_cons in Hd as [Hnin _]. apply Hnin.
    rewrite elem_of_app, list_elem_of_singleton. by right.
  - repeat case_match; cbn; by right.
  - rewrite Ho. cbn. left. unfold winDeps. cbn. intros [=]. lia.
  - repeat case_match; cbn; by right.
Qed.

Lemma step_Latched (p : Puzzle) (r : Runtime) (e : Event) :
  Inv p r -> Latched (session r) -> Latched (session (step levels r e)).
Proof.
  intros HI HL. unfold step.
  destruct (commit_deps p r e HI) as [Hne|(Ha & Ht & Hw)].
  - rewrite winCheckAfter_changed by done. unfold Latched, tiles. cbn.
    by intros ->.
  - rewrite winCheckAfter_same by (unfold winDeps; by rewrite Ha, Ht).
    unfold Latched, tiles in *. by rewrite Ha, Ht, Hw.
Qed.

Lemma mount_Latched (initialLevel : option Z) (now : Z) :
  Latched (session (mount levels initialLevel now)).
Proof.
  unfold mount. rewrite winCheckAfter_changed.
  - unfold Latched, tiles. cbn. by intros ->.
  - unfold puzzleEffect, winEffect, winDeps. cbn. intros [=].
Qed.

Lemma run_Latched (p : Puzzle) (events : list Event) :
  forall r, Inv p r -> Latched (session r) ->
            Latched (session (run levels r events)).
Proof.
  induction events as [|e events IH]; intros r HI HL; cbn; [done|].
  apply IH; [by apply step_Inv | by eapply step_Latched].
Qed.

Lemma commit_reset (p : Puzzle) (r : Runtime) (now : Z) :
  Inv p r ->
  commit levels r (PressReset now)
  = {| session :=
         withGameHistory []
           (withShowLevelComplete false
              (withGameWon false
                 (withInvalidOperation false
                    (withSelectedNumber2 None
                       (withSelectedOperation None
                          (withSelectedNumber1 None
                             (withInitialGridSize
                                (Z.of_nat (length (numbers p)))
                                (withAvailableNumbers
                                   {| addr := nextAddr r; elems := numbers p |}
                                   (withTargetNumber (target p)
                                      (session r))))))))));
       pendingTimers := pendingTimers r;
       nextAddr := S (nextAddr r) |}.
Proof.
  intros HI. unfold commit, handle, restartLevel.
  rewrite (inv_original _ _ HI). reflexivity.
Qed.

(** After a restart the win check has run on the restored tiles. *)
Lemma step_reset_won (p : Puzzle) (r : Runtime) (now : Z) :
  Inv p r ->
  let s' := session (step levels r (PressReset now)) in
  gameWon s' = GameLogic.isGameWon (tiles s') (targetNumber s').
Proof.
  intros HI. cbn. unfold step.
  rewrite winCheckAfter_changed.
  - rewrite (commit_reset p r now HI). cbn. by rewrite orb_false_r.
  - rewrite (commit_reset p r now HI). unfold winDeps. cbn.
    intros Heq. apply (f_equal fst) in Heq. cbn in Heq.
    pose proof (inv_current _ _ HI). lia.
Qed.

(** *** Tile values *)

Lemma commit_NonNeg (p : Puzzle) (r : Runtime) (e : Event) :
  Inv p r -> NonNeg (session r) -> NonNeg (session (commit levels r e)).
Proof.
  intros HI [Ht Hs Ho]. pose proof (inv_original _ _ HI) as Horig.
  destruct e; unfold_handlers.
  - repeat case_match; cbn; try (by constructor).
    + constructor; cbn;
        [|by apply Forall_app; split; [|apply Forall_singleton]|done].
      apply Forall_app. split; [by apply nonNegative_filter|].
      apply Forall_singleton. cbn. lia.
    + constructor; cbn;
        [|by apply Forall_app; split; [|apply Forall_singleton]|done].
      rewrite app_nil_r. by apply nonNegative_filter.
  - repeat case_match; cbn; by constructor.
  - case_match; [|by constructor].
    destruct (last (gameHistory (session r))) as [g|] eqn:Hlast;
      [|by constructor].
    apply last_split in Hlast.
    rewrite Hlast, Forall_app, Forall_singleton in Hs. destruct Hs as [Hs Hg].
    constructor; cbn; done.
  - repeat case_match; cbn; by constructor.
  - rewrite Horig. cbn. constructor; cbn; [|done|done].
    by apply Ho.
  - repeat case_match; cbn; by constructor.
Qed.

Lemma step_NonNeg (p : Puzzle) (r : Runtime) (e : Event) :
  Inv p r -> NonNeg (session r) -> NonNeg (session (step levels r e)).
Proof.
  intros HI HN. destruct (step_cells r e) as [w ->].
  destruct (commit_NonNeg p r e HI HN) as [Ht Hs Ho]. by constructor.
Qed.

Lemma run_NonNeg (p : Puzzle) (events : list Event) :
  forall r, Inv p r -> NonNeg (session r) ->
            NonNeg (session (run levels r events)).
Proof.
  induction events as [|e events IH]; intros r HI HN; cbn; [done|].
  apply IH; [by apply step_Inv | by eapply step_NonNeg].
Qed.

Lemma mount_tiles (initialLevel : option Z) (now : Z) :
  let s := session (mount levels initialLevel now) in
  tiles s = numbers (mountedPuzzle levels initialLevel now)
  /\ gameHistory s = [].
Proof.
  cbn. unfold mount.
  destruct (winCheckAfter_cells (initialSession initialLevel)
              (exec (puzzleEffect levels now (initialSession initialLevel) ;;
                     winEffect (initialSession initialLevel))
                 {| session := initialSession initialLevel;
                    pendingTimers := []; nextAddr := 1 |})) as [w ->].
  split; reflexivity.
Qed.

Lemma mount_NonNeg (initialLevel : option Z) (now : Z) :
  nonNegative (numbers (mountedPuzzle levels initialLevel now)) ->
  NonNeg (session (mount levels initialLevel now)).
Proof.
  intros H. destruct (mount_tiles initialLevel now) as [Ht Hh].
  constructor.
  - by rewrite Ht.
  - rewrite Hh. constructor.
  - intros p Hp.
    rewrite (inv_original _ _ (mount_Inv initialLevel now)) in Hp.
    by injection Hp as <-.
Qed.

(** *** The effects of a new level *)

Lemma puzzleEffect_cells (now : Z) (s0 : Session) (r : Runtime) :
  let r' := exec (puzzleEffect levels now s0) r in
  level (session r') = level (session r)
  /\ tiles (session r')
     = numbers (GameLogic.generatePuzzle levels now (level s0)).
Proof. split; reflexivity. Qed.

Lemma effectsAfter_level_changed (now : Z) (before : Session) (r : Runtime) :
  level (session r) ≠ level before ->
  winDeps (session r) = winDeps before ->
  exists w,
    session (exec (effectsAfter levels now before) r)
    = withGameWon w (session (exec (puzzleEffect levels now (session r)) r)).
Proof.
  intros Hlevel Hdeps. unfold effectsAfter, exec. cbn [snd].
  rewrite bool_decide_eq_true_2 by done.
  rewrite (bool_decide_eq_false_2 (winDeps _ ≠ winDeps _))
    by (intros Hne; by apply Hne).
  unfold bind.
  destruct (puzzleEffect levels now (session r) r) as [u r']. cbn [snd ret].
  apply winCheckAfter_cells.
Qed.

(** *** Selection *)

(** C9.  While no first tile is selected the press of an operation button
    changes nothing: [selectOperation] leaves the component as it is, and
    so does the whole event, cells, timers and all. *)
Theorem operation_press_without_first_tile (r : Runtime) (op : Operation) :
  selectedNumber1 (session r) = None ->
  exec (selectOperation (session r) op) r = r
  /\ step levels r (PressOperation op) = r.
Proof.
  intros Hnone. split.
  - unfold selectOperation. by rewrite Hnone.
  - unfold step, commit, handle. rewrite Hnone. cbn.
    by apply winCheckAfter_same.
Qed.

(** C3.  With a first tile and the division selected, the press of a
    second tile that does not divide evenly consumes no tile and saves
    nothing: the event records the second tile and raises the invalid
    signal, every other cell is as before, and the timer it starts, once
    it fires, empties the selection and lowers the signal, with the tiles
    and the history still those of before the attempt. *)
Theorem invalid_division_keeps_tiles (r : Runtime)
    (first second : NumberObject) (slot : nat) (now : Z) (random : string) :
  let s := session r in
  selectedNumber1 s = Some first ->
  selectedOperation s = Some OpDiv ->
  selectedNumber2 s = None ->
  displayGrid s !! slot = Some (Some second) ->
  id second ≠ id first ->
  GameLogic.validateDivision (value first) (value second) = false ->
  let r1 := step levels r (PressNumber slot now random) in
  let r2 := step levels r1 (TimerFires InvalidOperationTimer) in
  session r1 = withInvalidOperation true (withSelectedNumber2 (Some second) s)
  /\ pendingTimers r1 = pendingTimers r ++ [InvalidOperationTimer]
  /\ tiles (session r1) = tiles s
  /\ gameHistory (session r1) = gameHistory s
  /\ session r2
     = withInvalidOperation false
         (withSelectedNumber2 None
            (withSelectedOperation None (withSelectedNumber1 None s)))
  /\ tiles (session r2) = tiles s
  /\ gameHistory (session r2) = gameHistory s.
Proof.
  intros s H1 Hop H2 Hslot Hid Hdiv r1 r2.
  assert (E1 : r1 = {| session := withInvalidOperation true
                                    (withSelectedNumber2 (Some second) s);
                       pendingTimers :=
                         pendingTimers r ++ [InvalidOperationTimer];
                       nextAddr := nextAddr r |}).
  { subst r1. unfold step, commit, handle. fold s. rewrite Hslot.
    unfold selectNumber. rewrite H1, Hop, H2.
    rewrite !bool_decide_eq_true_2 by done. cbn.
    unfold performCalculation. rewrite Hdiv. cbn.
    by apply winCheckAfter_same. }
  assert (E2 : r2 = {| session :=
                         withInvalidOperation false
                           (withSelectedNumber2 None
                              (withSelectedOperation None
                                 (withSelectedNumber1 None s)));
                       pendingTimers :=
                         removeTimer InvalidOperationTimer
                           (pendingTimers r ++ [InvalidOperationTimer]);
                       nextAddr := nextAddr r |}).
  { subst r2. rewrite E1. unfold step, commit, handle. cbn.
    rewrite bool_decide_eq_true_2
      by (apply elem_of_app; right; apply list_elem_of_here).
    cbn. by rewrite winCheckAfter_same. }
  rewrite E2, E1. cbn. split; [reflexivity|]. split; [reflexivity|].
  split; [reflexivity|]. split; [reflexivity|]. split; [reflexivity|].
  split; reflexivity.
Qed.

(** *** Reduction and undo *)

(** C4.  Undo right after a successful reduction brings back the tiles
    and the grid size of before the reduction, empties the selection, and
    takes off the history the one entry the reduction had put on. *)
Theorem undo_after_reduction (r : Runtime) (slot : nat) (now : Z)
    (random : string) (first : NumberObject) (op : Operation)
    (second : NumberObject) (res : Z) :
  let s := session r in
  Reduction s slot first op second res ->
  let r1 := step levels r (PressNumber slot now random) in
  let r2 := step levels r1 PressUndo in
  tiles (session r2) = tiles s
  /\ initialGridSize (session r2) = initialGridSize s
  /\ selectedNumber1 (session r2) = None
  /\ selectedOperation (session r2) = None
  /\ selectedNumber2 (session r2) = None
  /\ length (gameHistory (session r1)) = S (length (gameHistory s))
  /\ gameHistory (session r2) = gameHistory s.
Proof.
  intros s Hred r1 r2.
  destruct (step_cells r (PressNumber slot now random)) as [w1 E1].
  rewrite (commit_reduction _ _ _ _ _ _ _ _ Hred) in E1. cbn in E1.
  fold r1 in E1.
  destruct (step_cells r1 PressUndo) as [w2 E2]. fold r2 in E2.
  rewrite (commit_undo r1
             {| saved_numbers := {| addr := nextAddr r; elems := tiles s |};
                gridSize := initialGridSize s;
                num1 := first; num2 := second;
                operation := op; result := res |}) in E2
    by (rewrite E1; cbn; apply last_snoc).
  rewrite E2, E1. cbn.
  rewrite length_app, removelast_last. cbn.
  subst s. split; [reflexivity|]. split; [reflexivity|].
  split; [reflexivity|]. split; [reflexivity|]. split; [reflexivity|].
  split; [lia|reflexivity].
Qed.

(** C5.  While a puzzle is played and the tiles in play have distinct
    identifiers, a successful reduction removes its two operands; with a
    positive result it pushes one tile, of that value and at the position
    of the first operand, so one tile less is in play; with the result 0 it
    pushes none, so two tiles less are in play. *)
Theorem reduction_tile_count (initialLevel : option Z) (start : Z)
    (events : list Event) (slot : nat) (now : Z) (random : string)
    (first : NumberObject) (op : Operation) (second : NumberObject) (res : Z) :
  let r := run levels (mount levels initialLevel start) events in
  let s := session r in
  NoDup (map id (tiles s)) ->
  Reduction s slot first op second res ->
  let s' := session (step levels r (PressNumber slot now random)) in
  let kept := filter (fun n => id n ≠ id first ∧ id n ≠ id second) (tiles s) in
  (0 < res ->
     tiles s' = kept ++ [{| value := res;
                            id := (toString now ++ "_" ++ random)%string;
                            position := position first |}]
     /\ (length (tiles s') + 1 = length (tiles s))%nat)
  /\ (res = 0 ->
     tiles s' = kept
     /\ (length (tiles s') + 2 = length (tiles s))%nat).
Proof.
  intros r s Hd Hred s' kept.
  assert (HI : Inv (mountedPuzzle levels initialLevel start) r)
    by apply run_Inv, mount_Inv.
  assert (Hkept : (length kept + 2 = length (tiles s))%nat).
  { destruct Hred as [H1 _ _ Hslot Hid _].
    apply filter_ids_two; [done| | |congruence].
    - apply list_elem_of_fmap. exists first. split; [done|].
      by apply (inv_selected _ _ HI).
    - apply list_elem_of_fmap. exists second. split; [done|].
      by apply displayGrid_member in Hslot. }
  destruct (step_cells r (PressNumber slot now random)) as [w E].
  rewrite (commit_reduction _ _ _ _ _ _ _ _ Hred) in E. fold s' in E.
  assert (Ht : tiles s' = kept ++ (if res >? 0
                                   then [resultTile now random first res]
                                   else [])) by (by rewrite E).
  split; intros Hres.
  - rewrite Ht. destruct (Z.gtb_spec res 0); [|lia].
    split; [reflexivity|]. rewrite length_app. cbn. lia.
  - rewrite Ht. subst res. cbn. rewrite app_nil_r. by split.
Qed.

(** *** Winning *)

(** After the mount the win check has run on the loaded tiles. *)
Lemma mount_won (initialLevel : option Z) (now : Z) :
  let s := session (mount levels initialLevel now) in
  gameWon s = GameLogic.isGameWon (tiles s) (targetNumber s).
Proof.
  cbn zeta. unfold mount. rewrite winCheckAfter_changed.
  - unfold tiles. cbn. by rewrite orb_false_r.
  - unfold puzzleEffect, winEffect, winDeps. cbn. intros [=].
Qed.

(** C1, as the code has it.  While a puzzle is played, after every event
    (reductions, undos and restarts among them) a tile equal to the target
    implies the won flag; after a restart the flag holds exactly when such
    a tile is in play; and no event but a restart clears the flag, so the
    undo of a winning move leaves it set.  The flag is never set without
    cause: when it holds after an event, it held before the event or a
    tile equal to the target is in play, and on the mounted screen it
    holds exactly when such a tile is in play. *)
Theorem won_flag_latched (initialLevel : option Z) (start : Z)
    (events : list Event) (e : Event) :
  let r := run levels (mount levels initialLevel start) events in
  let s := session r in
  let s' := session (step levels r e) in
  let targetReached :=
    exists t, t ∈ tiles s' /\ value t = targetNumber s' in
  (targetReached -> gameWon s' = true)
  /\ ((exists now, e = PressReset now) -> gameWon s' = true -> targetReached)
  /\ ((forall now, e ≠ PressReset now) -> gameWon s = true -> gameWon s' = true)
  /\ (gameWon s' = true -> gameWon s = true \/ targetReached)
  /\ (let s0 := session (mount levels initialLevel start) in
      gameWon s0 = true <-> exists t, t ∈ tiles s0 /\ value t = targetNumber s0).
Proof.
  intros r s s' targetReached.
  assert (HI : Inv (mountedPuzzle levels initialLevel start) r)
    by apply run_Inv, mount_Inv.
  assert (HL : Latched s)
    by (eapply run_Latched; [apply mount_Inv | apply mount_Latched]).
  assert (Hreset : (exists now, e = PressReset now) ->
                   gameWon s' = true -> targetReached).
  { intros [now ->] Hwon. apply isGameWon_spec.
    subst s'. by rewrite <- (step_reset_won _ r now HI). }
  split; [|split; [exact Hreset|split; [|split]]]; cycle 2.
  - intros Hwon.
    assert (Hcases : (exists now, e = PressReset now)
                     \/ (forall now, e ≠ PressReset now))
      by (destruct e; try (by right); left; by eexists).
    destruct Hcases as [Hr|Hne]; [right; by apply Hreset|].
    revert Hwon. subst s' targetReached. unfold step.
    destruct (decide (winDeps (session (commit levels r e)) = winDeps s))
      as [Hd|Hd].
    + rewrite winCheckAfter_same by done. rewrite commit_keeps_won by done.
      by left.
    + rewrite winCheckAfter_changed by done. cbn.
      rewrite commit_keeps_won by done. fold s.
      intros Hwon. apply orb_true_iff in Hwon as [Hwon|Hwon]; [right|by left].
      by apply isGameWon_spec.
  - cbn zeta. rewrite mount_won. apply isGameWon_spec.
  - intros Hreached. apply (step_Latched _ r e HI HL).
    by apply isGameWon_spec.
  - intros Hne Hwon. subst s'. unfold step.
    destruct (decide (winDeps (session (commit levels r e)) = winDeps s))
      as [Hd|Hd].
    + rewrite winCheckAfter_same by done. by rewrite commit_keeps_won.
    + rewrite winCheckAfter_changed by done. cbn.
      rewrite commit_keeps_won by done. fold s. rewrite Hwon.
      apply orb_true_r.
Qed.

(** *** Tile values *)

(** C10.  When no tile of the puzzle a screen is mounted with is negative,
    no tile in play is negative after any sequence of events: the
    calculations keep non-negative operands non-negative, and only a
    positive result becomes a tile. *)
Theorem tile_values_stay_non_negative (initialLevel : option Z) (start : Z)
    (events : list Event) :
  let puzzle := mountedPuzzle levels initialLevel start in
  (forall t, t ∈ numbers puzzle -> 0 <= value t) ->
  (forall t,
     t ∈ tiles (session (run levels (mount levels initialLevel start) events)) ->
     0 <= value t)
  /\ (forall a op b res,
        0 <= a -> 0 <= b ->
        GameLogic.performCalculation a op b = Some res -> 0 <= res).
Proof.
  intros puzzle Hp. split; [|apply performCalculation_nonneg].
  apply Forall_forall.
  apply (nn_tiles _ (run_NonNeg _ events _ (mount_Inv initialLevel start)
                       (mount_NonNeg initialLevel start
                          (proj2 (Forall_forall _ _) Hp)))).
Qed.

(** *** Restart *)

(** C6, as the code has it.  Whatever events came before, a restart brings
    the tiles, the target and the grid size back to those of the puzzle the
    screen was mounted with, empties the history and the selection, and
    writes [false] to the won flag; the win check that follows sets the
    flag again exactly when the original tiles already hold the target.
    A second restart changes nothing but the address of the array in
    play. *)
Theorem restart_returns_to_original (initialLevel : option Z) (start : Z)
    (events : list Event) (now again : Z) :
  let puzzle := mountedPuzzle levels initialLevel start in
  let r := run levels (mount levels initialLevel start) events in
  let restarted := commit levels r (PressReset now) in
  let settled := step levels r (PressReset now) in
  let c := session restarted in
  (tiles c = numbers puzzle
   /\ targetNumber c = target puzzle
   /\ initialGridSize c = Z.of_nat (length (numbers puzzle))
   /\ gameHistory c = []
   /\ selectedNumber1 c = None
   /\ selectedOperation c = None
   /\ selectedNumber2 c = None
   /\ gameWon c = false)
  /\ session settled
     = withGameWon (GameLogic.isGameWon (numbers puzzle) (target puzzle)) c
  /\ contents (session (commit levels settled (PressReset again))) = contents c
  /\ contents (session (step levels settled (PressReset again)))
     = contents (session settled).
Proof.
  intros puzzle r restarted settled c.
  assert (HI : Inv puzzle r) by apply run_Inv, mount_Inv.
  clearbody r puzzle.
  assert (HS : Inv puzzle settled) by by apply step_Inv.
  pose proof (commit_reset puzzle r now HI) as Ec. fold restarted in Ec.
  pose proof (commit_reset puzzle settled again HS) as Ec'.
  assert (Es : session settled
               = withGameWon
                   (GameLogic.isGameWon (numbers puzzle) (target puzzle)) c).
  { subst settled. unfold step. fold restarted.
    rewrite winCheckAfter_changed.
    - subst c. rewrite Ec. cbn. by rewrite orb_false_r.
    - rewrite Ec. unfold winDeps. cbn. intros Heq.
      apply (f_equal fst) in Heq. cbn in Heq.
      pose proof (inv_current _ _ HI). lia. }
  assert (Ec2 : contents (session (commit levels settled (PressReset again)))
                = contents c).
  { rewrite Ec', Es. subst c. rewrite Ec.
    destruct (session r). expand_cells. reflexivity. }
  split; [|split; [exact Es|split; [exact Ec2|]]].
  - subst c. rewrite Ec. cbn.
    split; [reflexivity|]. split; [reflexivity|]. split; [reflexivity|].
    split; [reflexivity|]. split; [reflexivity|]. split; [reflexivity|].
    split; reflexivity.
  - unfold step. rewrite winCheckAfter_changed.
    + rewrite Ec', Es. subst c. rewrite Ec.
      destruct (session r). expand_cells. cbn. by rewrite orb_false_r.
    + rewrite Ec'. unfold winDeps. cbn. intros Heq.
      apply (f_equal fst) in Heq. cbn in Heq.
      pose proof (inv_current _ _ HS). lia.
Qed.

(** *** Level progression *)

(** C8.  When the first or the second storage call of [nextLevel] rejects,
    [nextLevel] still writes the level plus one to the level cell and calls
    [onLevelComplete] once, with that level; after the effects the screen
    plays the puzzle of that level.  This holds for every implementation
    of the storage utilities. *)
Theorem progression_survives_storage_failure {S : Type}
    `{Storage.StorageUtils S} (now : Z) (app : App S)
    (error : Storage.Error) (left : S) :
  let s := session (screen app) in
  (Storage.addCompletedLevel (level s) (storage app) = (left, inl error)
   \/ exists stored,
        Storage.addCompletedLevel (level s) (storage app) = (stored, inr tt)
        /\ Storage.setCurrentLevel (level s + 1) stored = (left, inl error)) ->
  let advanced := nextLevel s app in
  let app' := pressNextLevel levels now app in
  (level (session (screen advanced)) = level s + 1
   /\ levelCompleteCalls advanced = levelCompleteCalls app ++ [level s + 1])
  /\ level (session (screen app')) = level s + 1
  /\ levelCompleteCalls app' = levelCompleteCalls app ++ [level s + 1]
  /\ tiles (session (screen app'))
     = numbers (GameLogic.generatePuzzle levels now (level s + 1)).
Proof.
  intros s Hfail advanced app'.
  assert (Ea : advanced
               = {| screen := exec (setLevel (level s + 1)) (screen app);
                    storage := left;
                    levelCompleteCalls :=
                      levelCompleteCalls app ++ [level s + 1] |}).
  { subst advanced. unfold nextLevel, Storage.await. fold s.
    destruct Hfail as [E|(stored & E1 & E2)].
    - by rewrite E.
    - by rewrite E1, E2. }
  split; [by rewrite Ea|].
  subst app'. unfold pressNextLevel. fold s. fold advanced. rewrite Ea.
  cbn [screen storage levelCompleteCalls].
  set (r := exec (setLevel (level s + 1)) (screen app)).
  assert (Hlevel : level (session r) = level s + 1) by reflexivity.
  assert (Hdeps : winDeps (session r) = winDeps s) by reflexivity.
  destruct (effectsAfter_level_changed now s r) as [w E]; [lia|done|].
  destruct (puzzleEffect_cells now (session r) r) as [Hl Ht].
  rewrite E, level_withGameWon, tiles_withGameWon, Hl, Ht, Hlevel.
  split; [reflexivity|]. split; reflexivity.
Qed.

End SessionProperties.

(** * Further properties of the engine *)

Import GameLogicQueries StorageQueries Play.

(** ** Decimal texts *)

Lemma to_int_proper (z : Z) :
  Z.to_int z ≠ Decimal.Pos Decimal.Nil /\ Z.to_int z ≠ Decimal.Neg Decimal.Nil.
Proof.
  destruct z; cbn; split; try discriminate; intros [= H];
    by apply (Unsigned.to_uint_nonnil p).
Qed.

(** A printed integer reads back as itself. *)
Lemma toString_read (z : Z) :
  Z.of_int <$> NilZero.int_of_string (toString z) = Some z.
Proof.
  unfold toString. destruct (to_int_proper z) as [Hp Hn].
  rewrite NilZero.isi by done. cbn. by rewrite DecimalZ.of_to.
Qed.

Lemma toString_inj (a b : Z) : toString a = toString b -> a = b.
Proof.
  intros H. pose proof (toString_read a) as Ha. rewrite H, toString_read in Ha.
  congruence.
Qed.

Lemma string_app_cons (c : ascii) (a b : string) :
  String.append (String c a) b = String c (String.append a b).
Proof. reflexivity. Qed.

Lemma string_app_nil (b : string) : String.append "" b = b.
Proof. reflexivity. Qed.

Lemma string_length_app (a b : string) :
  String.length (String.append a b)
  = (String.length a + String.length b)%nat.
Proof.
  induction a as [|c a IH]; [done|].
  rewrite string_app_cons. cbn. by rewrite IH.
Qed.

Lemma string_app_inj_r (a b s : string) :
  String.append a s = String.append b s -> a = b.
Proof.
  revert b. induction a as [|c a IH]; intros [|d b] H.
  - done.
  - apply (f_equal String.length) in H.
    rewrite string_app_nil, string_app_cons in H. cbn in H.
    rewrite string_length_app in H. lia.
  - apply (f_equal String.length) in H.
    rewrite string_app_nil, string_app_cons in H. cbn in H.
    rewrite string_length_app in H. lia.
  - rewrite !string_app_cons in H. injection H as -> H. f_equal. by apply IH.
Qed.

(** ** Generated puzzles *)

Lemma map_imap_index {A B C} (f : nat -> A -> B) (g : B -> C) (h : nat -> C)
    (l : list A) :
  (forall i x, g (f i x) = h i) ->
  map g (imap f l) = map h (seq 0 (length l)).
Proof.
  intros H. change (g <$> imap f l = h <$> seq 0 (length l)).
  rewrite fmap_imap, <- (imap_seq_0 l h).
  apply imap_ext. intros i x _. apply H.
Qed.

Section Puzzles.
Variable levels : gmap string LevelData.

Lemma puzzleId_inj (prefix : string) (levelNum now : Z) (i j : nat) :
  (prefix ++ toString levelNum ++ "_" ++ toString (Z.of_nat i) ++ "_"
     ++ toString now
   = prefix ++ toString levelNum ++ "_" ++ toString (Z.of_nat j) ++ "_"
       ++ toString now)%string ->
  i = j.
Proof.
  intros H.
  apply (inj (String.app prefix)) in H.
  apply (inj (String.app (toString levelNum))) in H.
  apply (inj (String.app "_")) in H.
  apply string_app_inj_r in H. apply toString_inj in H. lia.
Qed.

Lemma generatePuzzle_shape (now levelNum : Z) :
  exists (prefix : string) (values : list Z) (tgt : Z),
    (prefix = "level_"%string \/ prefix = "fallback_"%string)
    /\ GameLogic.generatePuzzle levels now levelNum
    = {| target := tgt;
         numbers :=
           imap (fun index v =>
                   {| value := v;
                      id := (prefix ++ toString levelNum ++ "_"
                               ++ toString (Z.of_nat index) ++ "_"
                               ++ toString now)%string;
                      position := Z.of_nat index |}) values |}
    /\ match levels !! toString levelNum with
       | Some levelData =>
           values = level_numbers levelData /\ tgt = level_target levelData
       | None =>
           values = map (fun v => v + Z.rem levelNum 5) [2; 3; 4; 5]
           /\ tgt = (2 + Z.rem levelNum 5) + (3 + Z.rem levelNum 5)
       end.
Proof.
  unfold GameLogic.generatePuzzle.
  destruct (levels !! toString levelNum) as [levelData|].
  - exists "level_"%string, (level_numbers levelData), (level_target levelData).
    split; [by left|by split].
  - exists "fallback_"%string, (map (fun v => v + Z.rem levelNum 5) [2; 3; 4; 5]),
      ((2 + Z.rem levelNum 5) + (3 + Z.rem levelNum 5)).
    split; [by right|by split].
Qed.

Lemma generatePuzzle_positions (now levelNum : Z) :
  let puzzle := GameLogic.generatePuzzle levels now levelNum in
  map position (numbers puzzle)
  = map Z.of_nat (seq 0 (length (numbers puzzle))).
Proof.
  cbn zeta.
  destruct (generatePuzzle_shape now levelNum)
    as (prefix & values & tgt & _ & E & _).
  rewrite E. cbn. rewrite length_imap. by apply map_imap_index.
Qed.

Lemma generatePuzzle_ids (now levelNum : Z) :
  NoDup (map id (numbers (GameLogic.generatePuzzle levels now levelNum))).
Proof.
  destruct (generatePuzzle_shape now levelNum)
    as (prefix & values & tgt & _ & E & _).
  rewrite E. cbn.
  rewrite (map_imap_index _ id
             (fun index => (prefix ++ toString levelNum ++ "_"
                              ++ toString (Z.of_nat index) ++ "_"
                              ++ toString now)%string)) by done.
  apply NoDup_fmap_2_strong; [|apply NoDup_seq].
  intros i j _ _. apply puzzleId_inj.
Qed.

(** X1.  A level of the table is played as the table gives it:
    [levelExists] answers true, the tiles carry the numbers of the level
    in their order, one tile for each number, and the target is the target
    of the level. *)
Theorem generated_puzzle_follows_table (now levelNum : Z)
    (levelData : LevelData) :
  levels !! toString levelNum = Some levelData ->
  let puzzle := GameLogic.generatePuzzle levels now levelNum in
  GameLogic.levelExists levels levelNum = true
  /\ map value (numbers puzzle) = level_numbers levelData
  /\ target puzzle = level_target levelData.
Proof.
  intros Hl. cbn zeta.
  destruct (generatePuzzle_shape now levelNum)
    as (prefix & values & tgt & _ & E & Hv).
  rewrite Hl in Hv. destruct Hv as [-> ->].
  split; [|split].
  - unfold GameLogic.levelExists. rewrite Hl. by apply bool_decide_eq_true_2.
  - rewrite E. cbn. rewrite fmap_imap.
    clear. generalize 0%nat. induction (level_numbers levelData) as [|v l IH];
      intros n; cbn; [done|]. f_equal. apply (IH (S n)).
  - by rewrite E.
Qed.

(** X2.  Whatever the level and the clock, the tiles of a generated puzzle
    sit on the positions 0, 1, 2, ... in their order and carry pairwise
    different ids; and a level of which [levelExists] answers false gets
    the fallback puzzle. *)
Theorem generated_tiles_are_distinct (now levelNum : Z) :
  let puzzle := GameLogic.generatePuzzle levels now levelNum in
  map position (numbers puzzle)
  = map Z.of_nat (seq 0 (length (numbers puzzle)))
  /\ NoDup (map id (numbers puzzle))
  /\ (GameLogic.levelExists levels levelNum = false ->
      puzzle = GameLogic.createFallbackPuzzle now levelNum).
Proof.
  cbn zeta. split; [apply generatePuzzle_positions|].
  split; [apply generatePuzzle_ids|].
  unfold GameLogic.levelExists, GameLogic.generatePuzzle.
  destruct (levels !! toString levelNum); [|done].
  intros H. apply bool_decide_eq_false_1 in H. destruct H. by eexists.
Qed.

End Puzzles.

(** ** The display grid, continued *)

Lemma totalPositions_bounds (n : Z) :
  4 <= totalPositions n /\ n <= totalPositions n
  /\ (n <= 9 ->
      totalPositions n
      = cols (GameLogic.getGridDimensions n) * rows (GameLogic.getGridDimensions n)).
Proof.
  unfold totalPositions, GameLogic.getGridDimensions, GameLogic.ceilThird.
  pose proof (Z.div_mod (- n) 3 ltac:(lia)).
  pose proof (Z.mod_pos_bound (- n) 3 ltac:(lia)).
  destruct (Z.leb_spec n 4); cbn; [lia|].
  destruct (Z.leb_spec n 6); cbn; lia.
Qed.

Lemma length_placeNumber total grid n :
  length (GameLogic.placeNumber total grid n) = length grid.
Proof.
  unfold GameLogic.placeNumber. repeat case_match; by rewrite ?length_insert.
Qed.

Lemma length_foldl_placeNumber total l : forall grid,
  length (foldl (GameLogic.placeNumber total) grid l) = length grid.
Proof.
  induction l as [|n l IH]; intros grid; cbn; [done|].
  by rewrite IH, length_placeNumber.
Qed.

Lemma placeNumber_other total grid n (i : nat) :
  position n ≠ Z.of_nat i ->
  GameLogic.placeNumber total grid n !! i = grid !! i.
Proof.
  intros Hne. unfold GameLogic.placeNumber.
  destruct (position n <? total); [|done].
  destruct (Z.leb_spec 0 (position n)); [|done].
  apply list_lookup_insert_ne. lia.
Qed.

Lemma foldl_placeNumber_other total l (i : nat) : forall grid,
  (forall u, u ∈ l -> position u ≠ Z.of_nat i) ->
  foldl (GameLogic.placeNumber total) grid l !! i = grid !! i.
Proof.
  induction l as [|n l IH]; intros grid H; cbn; [done|].
  rewrite IH by (intros u Hu; apply H; by apply list_elem_of_further).
  apply placeNumber_other. apply H. apply list_elem_of_here.
Qed.

Lemma placeNumber_here total grid n :
  0 <= position n < total ->
  (Z.to_nat (position n) < length grid)%nat ->
  GameLogic.placeNumber total grid n !! Z.to_nat (position n) = Some (Some n).
Proof.
  intros [H0 Ht] Hlen. unfold GameLogic.placeNumber.
  destruct (Z.ltb_spec (position n) total); [|lia].
  destruct (Z.leb_spec 0 (position n)); [|lia].
  by apply list_lookup_insert_eq.
Qed.

Lemma placeNumber_slot_position total grid n (i : nat) t :
  GameLogic.placeNumber total grid n !! i = Some (Some t) ->
  (t = n /\ position n = Z.of_nat i) \/ grid !! i = Some (Some t).
Proof.
  unfold GameLogic.placeNumber.
  destruct (position n <? total); [|by right].
  destruct (Z.leb_spec 0 (position n)); [|by right].
  destruct (decide (i = Z.to_nat (position n))) as [->|Hne].
  - intros Hl. destruct (decide (Z.to_nat (position n) < length grid)%nat).
    + rewrite list_lookup_insert_eq in Hl by done. left.
      split; [congruence|lia].
    + rewrite list_insert_ge in Hl by lia. by right.
  - rewrite list_lookup_insert_ne by done. by right.
Qed.

Lemma foldl_placeNumber_slot_position total l : forall grid (i : nat) t,
  foldl (GameLogic.placeNumber total) grid l !! i = Some (Some t) ->
  (t ∈ l /\ position t = Z.of_nat i) \/ grid !! i = Some (Some t).
Proof.
  induction l as [|n l IH]; intros grid i t H; cbn in H; [by right|].
  apply IH in H as [[H1 H2]|H].
  - left. split; [by apply list_elem_of_further|done].
  - apply placeNumber_slot_position in H as [[-> H]|H]; [left|by right].
    split; [apply list_elem_of_here|done].
Qed.

Lemma foldl_placeNumber_here total l : forall grid t,
  NoDup (map position l) ->
  t ∈ l ->
  0 <= position t < total ->
  (Z.to_nat (position t) < length grid)%nat ->
  foldl (GameLogic.placeNumber total) grid l !! Z.to_nat (position t)
  = Some (Some t).
Proof.
  induction l as [|n l IH]; intros grid t Hd Hin Hr Hlen;
    [by apply elem_of_nil in Hin|].
  cbn in Hd. apply NoDup_cons in Hd as [Hn Hd]. cbn.
  apply elem_of_cons in Hin as [->|Hin].
  - rewrite foldl_placeNumber_other; [by apply placeNumber_here|].
    intros u Hu Heq. apply Hn. apply list_elem_of_fmap. exists u.
    split; [lia|done].
  - apply IH; [done..|]. by rewrite length_placeNumber.
Qed.

Lemma length_createDisplayGrid (availableNumbers : list NumberObject)
    (initialGridSize : Z) :
  Z.of_nat (length (fst (GameLogic.createDisplayGrid availableNumbers
                           initialGridSize)))
  = totalPositions initialGridSize.
Proof.
  destruct (totalPositions_bounds initialGridSize) as (H4 & _).
  unfold GameLogic.createDisplayGrid. cbn.
  rewrite length_foldl_placeNumber, length_replicate.
  fold (totalPositions initialGridSize). lia.
Qed.

Lemma createDisplayGrid_here (availableNumbers : list NumberObject)
    (initialGridSize : Z) (t : NumberObject) :
  NoDup (map position availableNumbers) ->
  t ∈ availableNumbers ->
  0 <= position t < totalPositions initialGridSize ->
  fst (GameLogic.createDisplayGrid availableNumbers initialGridSize)
    !! Z.to_nat (position t) = Some (Some t).
Proof.
  intros Hd Hin Hr. unfold GameLogic.createDisplayGrid. cbn.
  fold (totalPositions initialGridSize).
  apply foldl_placeNumber_here; [done..|].
  rewrite length_replicate. lia.
Qed.

(** X3.  The grid has [totalPositions] slots, never fewer than four nor
    than [initialGridSize]; a slot shows only a tile of the list whose
    position is that slot; a slot that is the position of no tile is
    empty; and when the positions are distinct every tile whose position
    is a slot is shown there. *)
Theorem display_grid_layout (availableNumbers : list NumberObject)
    (initialGridSize : Z) :
  let grid := fst (GameLogic.createDisplayGrid availableNumbers initialGridSize) in
  let total := totalPositions initialGridSize in
  Z.of_nat (length grid) = total
  /\ 4 <= total /\ initialGridSize <= total
  /\ (forall (slot : nat) t,
        grid !! slot = Some (Some t) ->
        t ∈ availableNumbers /\ position t = Z.of_nat slot)
  /\ (forall (slot : nat),
        (slot < length grid)%nat ->
        (forall t, t ∈ availableNumbers -> position t ≠ Z.of_nat slot) ->
        grid !! slot = Some None)
  /\ (NoDup (map position availableNumbers) ->
      forall t, t ∈ availableNumbers -> 0 <= position t < total ->
                grid !! Z.to_nat (position t) = Some (Some t)).
Proof.
  intros grid total.
  destruct (totalPositions_bounds initialGridSize) as (H4 & Hn & _).
  split; [apply length_createDisplayGrid|].
  split; [done|]. split; [done|]. split; [|split].
  - intros slot t H. subst grid. unfold GameLogic.createDisplayGrid in H.
    cbn in H. apply foldl_placeNumber_slot_position in H as [H|H]; [done|].
    apply lookup_replicate in H as [H _]. discriminate.
  - intros slot Hslot Hfree. subst grid.
    unfold GameLogic.createDisplayGrid in *. cbn in *.
    rewrite foldl_placeNumber_other by done.
    rewrite length_foldl_placeNumber, length_replicate in Hslot.
    by apply lookup_replicate_2.
  - intros Hd t Hin Hr. by apply createDisplayGrid_here.
Qed.

(** X4.  The grid [getGridDimensions] announces is the grid that is laid
    out as long as there are at most nine tiles; it then has room for all
    of them. With ten tiles or more it announces nine slots. *)
Theorem grid_dimensions_agree (numCount : Z) :
  let dims := GameLogic.getGridDimensions numCount in
  (numCount <= 9 ->
     cols dims * rows dims = totalPositions numCount
     /\ numCount <= cols dims * rows dims)
  /\ (9 < numCount -> cols dims * rows dims = 9 /\ 9 < totalPositions numCount).
Proof.
  cbn zeta. destruct (totalPositions_bounds numCount) as (H4 & Hn & H9).
  split.
  - intros H. rewrite <- (H9 H). lia.
  - intros H. split; [|lia].
    unfold GameLogic.getGridDimensions.
    destruct (Z.leb_spec numCount 4); [lia|].
    destruct (Z.leb_spec numCount 6); [lia|]. reflexivity.
Qed.

(** ** Moves, difficulty and hints *)

Lemma performCalculation_computes (a : Z) (op : Operation) (b : Z) :
  bool_decide (op = OpDiv) && negb (GameLogic.validateDivision a b) = false ->
  GameLogic.performCalculation a op b ≠ None.
Proof.
  destruct op; cbn; try done.
  by destruct (GameLogic.validateDivision a b).
Qed.

Lemma validateMove_true (first second : NumberObject) (op : Operation) :
  validateMove (Some first) (Some op) (Some second) = true ->
  id first ≠ id second
  /\ GameLogic.performCalculation (value first) op (value second) ≠ None.
Proof.
  unfold validateMove. case_bool_decide as Hid; [done|].
  destruct (bool_decide (op = OpDiv)
            && negb (GameLogic.validateDivision (value first) (value second)))
    eqn:Hinv; [done|].
  intros _. split; [done|]. by apply performCalculation_computes.
Qed.

(** X5.  [validateMove] accepts exactly the pairs of different tiles that
    [performCalculation] computes a result for, and nothing while a part
    of the move is missing. *)
Theorem validateMove_accepts_computable (first second : NumberObject)
    (op : Operation) :
  (validateMove (Some first) (Some op) (Some second) = true
   <-> id first ≠ id second
       /\ exists res,
            GameLogic.performCalculation (value first) op (value second)
            = Some res)
  /\ validateMove None (Some op) (Some second) = false
  /\ validateMove (Some first) None (Some second) = false
  /\ validateMove (Some first) (Some op) None = false.
Proof.
  split; [|done]. unfold validateMove.
  destruct (decide (id first = id second)) as [E|E].
  - rewrite bool_decide_eq_true_2 by done. split; [done|tauto].
  - rewrite bool_decide_eq_false_2 by done.
    destruct op; cbn; try (split; [intros _; split; [done|by eexists]|done]).
    unfold GameLogic.performCalculation.
    destruct (GameLogic.validateDivision (value first) (value second)); cbn.
    + split; [intros _; split; [done|by eexists]|done].
    + split; [done|]. by intros [_ [res ?]].
Qed.

(** X6.  From level 1 on the difficulty score lies between 1 and 10, never
    falls as the level rises, and is 10 from level 46 on; up to level 45
    it is the number of the block of five levels the level lies in. *)
Theorem difficulty_score_range (levelNum : Z) :
  1 <= levelNum ->
  1 <= getDifficultyScore levelNum <= 10
  /\ (forall higher, levelNum <= higher ->
        getDifficultyScore levelNum <= getDifficultyScore higher)
  /\ (46 <= levelNum -> getDifficultyScore levelNum = 10)
  /\ (levelNum <= 45 -> 5 * (getDifficultyScore levelNum - 1) < levelNum
                        /\ levelNum <= 5 * getDifficultyScore levelNum).
Proof.
  intros H1. unfold getDifficultyScore.
  pose proof (Z.div_mod (- levelNum) 5 ltac:(lia)).
  pose proof (Z.mod_pos_bound (- levelNum) 5 ltac:(lia)).
  split; [lia|]. split; [|lia].
  intros higher Hh.
  pose proof (Z.div_mod (- higher) 5 ltac:(lia)).
  pose proof (Z.mod_pos_bound (- higher) 5 ltac:(lia)).
  lia.
Qed.

Lemma foldl_bind {A B C} (f : A -> C -> A) (g : B -> list C) (l : list B) :
  forall a, foldl f a (l ≫= g) = foldl (fun a x => foldl f a (g x)) a l.
Proof.
  induction l as [|x l IH]; intros a; [done|].
  rewrite bind_cons, foldl_app. apply IH.
Qed.

Lemma foldl_ext_in {A B} (f g : A -> B -> A) (l : list B) :
  (forall a x, x ∈ l -> f a x = g a x) -> forall a, foldl f a l = foldl g a l.
Proof.
  induction l as [|x l IH]; intros H a; [done|]. cbn.
  rewrite (H a x) by apply list_elem_of_here.
  apply IH. intros a' y Hy. apply H. by apply list_elem_of_further.
Qed.

Lemma generateHint_moves (l : list NumberObject) (targetNumber : Z) :
  generateHint l targetNumber
  = if (length l <? 2)%nat then None
    else fst (foldl (tryMove targetNumber) (None, None) (movesOf l)).
Proof.
  unfold generateHint. destruct (length l <? 2)%nat; [done|]. f_equal.
  unfold movesOf. rewrite foldl_bind. apply foldl_ext_in. intros a i _.
  rewrite foldl_bind. apply foldl_ext_in. intros b j _.
  destruct (l !! i) as [num1|]; [|done]. destruct (l !! j) as [num2|]; [|done].
  unfold operations. reflexivity.
Qed.

Lemma elem_of_movesOf (l : list NumberObject) (num1 num2 : NumberObject)
    (op : Operation) :
  (num1, num2, op) ∈ movesOf l
  <-> exists i j, (i < j)%nat /\ l !! i = Some num1 /\ l !! j = Some num2.
Proof.
  unfold movesOf. rewrite list_elem_of_bind. split.
  - intros (i & Hin & Hi). apply list_elem_of_bind in Hin as (j & Hin & Hj).
    apply elem_of_seq in Hj.
    destruct (l !! i) as [n1|] eqn:E1; [|by apply elem_of_nil in Hin].
    destruct (l !! j) as [n2|] eqn:E2; [|by apply elem_of_nil in Hin].
    apply list_elem_of_fmap in Hin as (op' & [= -> -> ->] & _).
    exists i, j. split; [lia|done].
  - intros (i & j & Hij & H1 & H2).
    pose proof (lookup_lt_Some _ _ _ H1). pose proof (lookup_lt_Some _ _ _ H2).
    exists i. split; [|apply elem_of_seq; lia].
    apply list_elem_of_bind. exists j. split; [|apply elem_of_seq; lia].
    rewrite H1, H2. apply list_elem_of_fmap. exists op. split; [done|].
    unfold operations. destruct op; set_solver.
Qed.

Lemma tryMove_Best (targetNumber : Z) (tried : list Move) (state : HintState)
    (m : Move) :
  Best targetNumber tried state ->
  Best targetNumber (tried ++ [m]) (tryMove targetNumber state m).
Proof.
  destruct m as [[num1 num2] op]. unfold tryMove, tryOperation. cbn.
  destruct (GameLogic.performCalculation (value num1) op (value num2))
    as [result|] eqn:Hres.
  - destruct state as [[text|] [d|]]; cbn; try done.
    + intros (m0 & r0 & Hin & Hr0 & -> & -> & Hmin).
      destruct (Z.ltb_spec (Z.abs (result - targetNumber))
                  (Z.abs (r0 - targetNumber))).
      * exists (num1, num2, op), result. cbn.
        split; [set_solver|]. split; [done|]. split; [done|]. split; [done|].
        intros m' d' Hm' Hd'. apply elem_of_app in Hm' as [Hm'|Hm'].
        -- specialize (Hmin m' d' Hm' Hd'). lia.
        -- apply list_elem_of_singleton in Hm'. subst m'.
           unfold distance in Hd'. cbn in Hd'. rewrite Hres in Hd'.
           injection Hd' as <-. lia.
      * exists m0, r0. split; [set_solver|]. split; [done|]. split; [done|].
        split; [done|].
        intros m' d' Hm' Hd'. apply elem_of_app in Hm' as [Hm'|Hm'].
        -- exact (Hmin m' d' Hm' Hd').
        -- apply list_elem_of_singleton in Hm'. subst m'.
           unfold distance in Hd'. cbn in Hd'. rewrite Hres in Hd'.
           injection Hd' as <-. lia.
    + intros Hnone. exists (num1, num2, op), result. cbn.
      split; [set_solver|]. split; [done|]. split; [done|]. split; [done|].
      intros m' d' Hm' Hd'. apply elem_of_app in Hm' as [Hm'|Hm'].
      * by rewrite (Hnone m' Hm') in Hd'.
      * apply list_elem_of_singleton in Hm'. subst m'.
        unfold distance in Hd'. cbn in Hd'. rewrite Hres in Hd'.
        injection Hd' as <-. lia.
  - destruct state as [[text|] [d|]]; cbn; try done.
    + intros (m0 & r0 & Hin & Hr0 & -> & -> & Hmin).
      exists m0, r0. split; [set_solver|]. split; [done|]. split; [done|].
      split; [done|].
      intros m' d' Hm' Hd'. apply elem_of_app in Hm' as [Hm'|Hm'].
      * exact (Hmin m' d' Hm' Hd').
      * apply list_elem_of_singleton in Hm'. subst m'.
        unfold distance in Hd'. cbn in Hd'. by rewrite Hres in Hd'.
    + intros Hnone m' Hm'. apply elem_of_app in Hm' as [Hm'|Hm'].
      * by apply Hnone.
      * apply list_elem_of_singleton in Hm'. subst m'.
        unfold distance. cbn. by rewrite Hres.
Qed.

Lemma foldl_tryMove_Best (targetNumber : Z) (moves : list Move) :
  forall tried state,
    Best targetNumber tried state ->
    Best targetNumber (tried ++ moves)
      (foldl (tryMove targetNumber) state moves).
Proof.
  induction moves as [|m moves IH]; intros tried state H; cbn.
  - by rewrite app_nil_r.
  - replace (tried ++ m :: moves) with ((tried ++ [m]) ++ moves)
      by (by rewrite <- app_assoc).
    apply IH. by apply tryMove_Best.
Qed.

(** X7.  [generateHint] answers nothing exactly when fewer than two tiles
    are in play. Otherwise its hint names two tiles, the first before the
    second in the list, an operation and the result the calculation gives,
    and no calculation on any such pair comes closer to the target. *)
Theorem hint_is_closest (l : list NumberObject) (targetNumber : Z) :
  (generateHint l targetNumber = None <-> (length l < 2)%nat)
  /\ forall text,
       generateHint l targetNumber = Some text ->
       exists i j num1 num2 op result,
         (i < j)%nat /\ l !! i = Some num1 /\ l !! j = Some num2
         /\ GameLogic.performCalculation (value num1) op (value num2)
            = Some result
         /\ text = hintText num1 op num2 result
         /\ forall i' j' num1' num2' op' result',
              (i' < j')%nat -> l !! i' = Some num1' -> l !! j' = Some num2' ->
              GameLogic.performCalculation (value num1') op' (value num2')
              = Some result' ->
              Z.abs (result - targetNumber) <= Z.abs (result' - targetNumber).
Proof.
  rewrite generateHint_moves.
  pose proof (foldl_tryMove_Best targetNumber (movesOf l) [] (None, None))
    as HB. cbn in HB.
  specialize (HB ltac:(by intros m Hm; apply elem_of_nil in Hm)).
  destruct (Nat.ltb_spec (length l) 2) as [Hlen|Hlen].
  - split; [done|]. intros text [=].
  - destruct (foldl (tryMove targetNumber) (None, None) (movesOf l))
      as [[text|] [d|]]; cbn in *; try done.
    + split; [split; [done|lia]|]. intros text' [= <-].
      destruct HB as ([[num1 num2] op] & result & Hin & Hres & -> & -> & Hmin).
      cbn in *. apply elem_of_movesOf in Hin as (i & j & Hij & H1 & H2).
      exists i, j, num1, num2, op, result.
      split; [done|]. split; [done|]. split; [done|]. split; [done|].
      split; [done|].
      intros i' j' num1' num2' op' result' Hij' H1' H2' Hres'.
      apply (Hmin (num1', num2', op')).
      * apply elem_of_movesOf. by exists i', j'.
      * unfold distance. cbn. by rewrite Hres'.
    + exfalso.
      destruct l as [|a [|b l]]; cbn in Hlen; [lia..|].
      assert ((a, b, OpAdd) ∈ movesOf (a :: b :: l)) as Hin
        by (apply elem_of_movesOf; exists 0%nat, 1%nat; split; [lia|done]).
      specialize (HB _ Hin). discriminate HB.
Qed.

(** ** The boards of a session *)

Section Boards.
Variable levels : gmap string LevelData.

(** What an event does to the boards: nothing, a push of the board a
    reduction leaves, a pop, or a reset to the original board alone. *)
Lemma commit_boards (p : Puzzle) (r : Runtime) (e : Event) :
  Inv p r ->
  let s := session r in
  let c := session (commit levels r e) in
  (availableNumbers c = availableNumbers s /\ gameHistory c = gameHistory s
   /\ initialGridSize c = initialGridSize s)
  \/ (exists slot now random first op second res,
        e = PressNumber slot now random
        /\ Reduction s slot first op second res
        /\ boards c
           = boards s ++ [afterReduction (tiles s) now random first second res]
        /\ grids c = grids s ++ [initialGridSize s])
  \/ (e = PressUndo
      /\ gameHistory s ≠ []
      /\ boards c = removelast (boards s)
      /\ grids c = removelast (grids s))
  \/ (exists now,
        e = PressReset now
        /\ boards c = [numbers p]
        /\ grids c = [Z.of_nat (length (numbers p))]).
Proof.
  intros HI. cbn zeta.
  destruct e as [slot now random|op| | |now|t].
  - destruct (displayGrid (session r) !! slot) as [[second|]|] eqn:Hslot;
      [|left; unfold commit, handle; by rewrite Hslot..].
    destruct (selectedNumber1 (session r)) as [first|] eqn:H1;
      [|left; unfold commit, handle, selectNumber; by rewrite Hslot, H1].
    destruct (selectedOperation (session r)) as [op|] eqn:Hop;
      [|left; unfold commit, handle, selectNumber; by rewrite Hslot, H1, Hop].
    destruct (selectedNumber2 (session r)) as [third|] eqn:H2;
      [left; unfold commit, handle, selectNumber; by rewrite Hslot, H1, Hop, H2|].
    destruct (decide (id second = id first)) as [Hid|Hid];
      [left; unfold commit, handle, selectNumber; rewrite Hslot, H1, Hop, H2;
       rewrite (bool_decide_eq_false_2 (id second ≠ id first)) by tauto;
       by rewrite andb_false_r|].
    destruct (GameLogic.performCalculation (value first) op (value second))
      as [res|] eqn:Hres.
    + right. left. exists slot, now, random, first, op, second, res.
      assert (Hred : Reduction (session r) slot first op second res)
        by (by constructor).
      split; [done|]. split; [done|].
      rewrite (commit_reduction levels r slot now random first op second res Hred).
      unfold boards, grids, reduced, afterReduction. cbn.
      rewrite !map_app. cbn. by rewrite <- !app_assoc.
    + left. unfold commit, handle, selectNumber. rewrite Hslot, H1, Hop, H2.
      rewrite !bool_decide_eq_true_2 by done. cbn.
      unfold performCalculation. rewrite Hres.
      by destruct (bool_decide (op = OpDiv)
                   && negb (GameLogic.validateDivision (value first)
                              (value second))).
  - left. unfold commit, handle, selectOperation. by repeat case_match.
  - destruct (last (gameHistory (session r))) as [g|] eqn:Hlast.
    + right. right. left. split; [done|].
      split; [intros Hnil; by rewrite Hnil in Hlast|].
      rewrite (commit_undo levels r g Hlast). unfold boards, grids. cbn.
      apply last_split in Hlast. rewrite !removelast_last.
      split; symmetry; rewrite Hlast at 1; by rewrite map_app.
    + left. unfold commit, handle, undoLastMove. rewrite Hlast.
      by case_match.
  - left. unfold commit, handle, resetSelection. by case_match.
  - right. right. right. exists now. split; [done|].
    by rewrite (commit_reset levels p r now HI).
  - left. unfold commit, handle, timerCallback, resetSelection.
    by repeat case_match.
Qed.

(** X8.  The press of a tile while a first tile and an operation may be
    selected and no second tile is recorded: when [validateMove] accepts
    the move the screen carries it out, the two tiles give way to the
    result and the board before the move is pushed on the history; when it
    refuses, tiles and history stay as they are. *)
Theorem screen_reduces_valid_moves (r : Runtime) (slot : nat) (now : Z)
    (random : string) (second : NumberObject) :
  let s := session r in
  displayGrid s !! slot = Some (Some second) ->
  selectedNumber2 s = None ->
  let s' := session (step levels r (PressNumber slot now random)) in
  if validateMove (selectedNumber1 s) (selectedOperation s) (Some second)
  then exists first op res,
         selectedNumber1 s = Some first
         /\ selectedOperation s = Some op
         /\ GameLogic.performCalculation (value first) op (value second)
            = Some res
         /\ tiles s' = afterReduction (tiles s) now random first second res
         /\ map (fun g => elems (saved_numbers g)) (gameHistory s')
            = map (fun g => elems (saved_numbers g)) (gameHistory s)
              ++ [tiles s]
  else tiles s' = tiles s /\ gameHistory s' = gameHistory s.
Proof.
  intros s Hslot H2 s'. subst s'.
  destruct (step_cells levels r (PressNumber slot now random)) as [w ->].
  destruct (validateMove _ _ _) eqn:Hv.
  - destruct (selectedNumber1 s) as [first|] eqn:H1; [|done].
    destruct (selectedOperation s) as [op|] eqn:Hop; [|done].
    apply validateMove_true in Hv as [Hid Hres].
    destruct (GameLogic.performCalculation (value first) op (value second))
      as [res|] eqn:Hcalc; [|done].
    exists first, op, res.
    assert (Hred : Reduction (session r) slot first op second res)
      by (by constructor).
    rewrite (commit_reduction levels r slot now random first op second res Hred).
    split; [done|]. split; [done|]. split; [done|].
    unfold reduced, afterReduction. cbn. split; [done|].
    by rewrite map_app.
  - unfold commit, handle. fold s. rewrite Hslot. unfold selectNumber.
    destruct (selectedNumber1 s) as [first|] eqn:H1; [|done].
    destruct (selectedOperation s) as [op|] eqn:Hop; [|done].
    rewrite H2. rewrite (bool_decide_eq_true_2 (None = None)) by done.
    case_bool_decide as Hid; cbn; [|done].
    unfold performCalculation.
    destruct (bool_decide (op = OpDiv)
              && negb (GameLogic.validateDivision (value first) (value second)))
      eqn:Hinv; [done|].
    exfalso. unfold validateMove in Hv.
    rewrite bool_decide_eq_false_2 in Hv by (intros E; by rewrite E in Hid).
    by rewrite Hinv in Hv.
Qed.

End Boards.

Lemma NoDup_map_inj {A B} (f : A -> B) (l : list A) (x y : A) :
  NoDup (map f l) -> x ∈ l -> y ∈ l -> f x = f y -> x = y.
Proof.
  induction l as [|a l IH]; intros Hd Hx Hy Hf; [by apply elem_of_nil in Hx|].
  cbn in Hd. apply NoDup_cons in Hd as [Ha Hd].
  apply elem_of_cons in Hx as [->|Hx]; apply elem_of_cons in Hy as [->|Hy].
  - done.
  - destruct Ha. rewrite Hf. apply list_elem_of_fmap. by exists y.
  - destruct Ha. rewrite <- Hf. apply list_elem_of_fmap. by exists x.
  - by apply IH.
Qed.

Lemma NoDup_map_filter {A B} (f : A -> B) (P : A -> Prop)
    `{!forall x, Decision (P x)} (l : list A) :
  NoDup (map f l) -> NoDup (map f (filter P l)).
Proof.
  induction l as [|a l IH]; intros Hd; [done|].
  cbn in Hd. apply NoDup_cons in Hd as [Ha Hd].
  rewrite filter_cons. destruct (decide (P a)); [|by apply IH].
  cbn. apply NoDup_cons. split; [|by apply IH].
  intros Hin. apply Ha. apply list_elem_of_fmap in Hin as (y & Hy & Hin).
  apply list_elem_of_filter in Hin as [_ Hin].
  apply list_elem_of_fmap. by exists y.
Qed.

(** A reduction takes its two operands out of play. *)
Lemma filter_removes_two (l : list NumberObject) (first second : NumberObject) :
  first ∈ l -> second ∈ l -> id second ≠ id first ->
  (length (filter (fun n => id n ≠ id first ∧ id n ≠ id second) l) + 2
   <= length l)%nat.
Proof.
  induction l as [|n l IH]; intros H1 H2 Hid; [by apply elem_of_nil in H1|].
  rewrite filter_cons. case_decide as Hn.
  - destruct Hn as [Hn1 Hn2].
    apply elem_of_cons in H1 as [->|H1]; [done|].
    apply elem_of_cons in H2 as [->|H2]; [done|].
    cbn. specialize (IH H1 H2 Hid). lia.
  - cbn. destruct (decide (id n = id first)) as [E|E].
    + apply elem_of_cons in H2 as [->|H2]; [congruence|].
      pose proof (length_filter_lt
                    (fun n => id n ≠ id first ∧ id n ≠ id second) l second H2
                    ltac:(tauto)). lia.
    + apply elem_of_cons in H1 as [->|H1]; [done|].
      pose proof (length_filter_lt
                    (fun n => id n ≠ id first ∧ id n ≠ id second) l first H1
                    ltac:(tauto)). lia.
Qed.

Lemma afterReduction_length (l : list NumberObject) now random first second res :
  first ∈ l -> second ∈ l -> id second ≠ id first ->
  (length (afterReduction l now random first second res) + 1 <= length l)%nat.
Proof.
  intros H1 H2 Hid. unfold afterReduction. rewrite length_app.
  pose proof (filter_removes_two l first second H1 H2 Hid).
  destruct (res >? 0); cbn; lia.
Qed.

Lemma afterReduction_wellPlaced len (l : list NumberObject) now random
    first second res :
  wellPlaced len l -> first ∈ l ->
  wellPlaced len (afterReduction l now random first second res).
Proof.
  intros [Hd Hr] H1. unfold afterReduction. split.
  - rewrite map_app. apply NoDup_app. split; [by apply NoDup_map_filter|].
    split; [|destruct (res >? 0); [apply NoDup_singleton|apply NoDup_nil_2]].
    intros x Hx Hx'. destruct (res >? 0); [|by apply elem_of_nil in Hx'].
    cbn in Hx'. apply list_elem_of_singleton in Hx'. subst x.
    apply list_elem_of_fmap in Hx as (u & Hu & Hin).
    apply list_elem_of_filter in Hin as [[Hne _] Hin].
    apply Hne. f_equal. by apply (NoDup_map_inj position l).
  - intros t Ht. apply elem_of_app in Ht as [Ht|Ht].
    + apply list_elem_of_filter in Ht as [_ Ht]. by apply Hr.
    + destruct (res >? 0); [|by apply elem_of_nil in Ht].
      apply list_elem_of_singleton in Ht. subst t. cbn. by apply Hr.
Qed.

Lemma boards_withGameWon w s : boards (withGameWon w s) = boards s.
Proof. reflexivity. Qed.

Lemma grids_withGameWon w s : grids (withGameWon w s) = grids s.
Proof. reflexivity. Qed.

Lemma boards_length s : length (boards s) = S (length (gameHistory s)).
Proof. unfold boards. rewrite length_app, length_map. cbn. lia. Qed.

Lemma boards_top s : boards s !! length (gameHistory s) = Some (tiles s).
Proof.
  unfold boards. rewrite lookup_app_r by (rewrite length_map; lia).
  by rewrite length_map, Nat.sub_diag.
Qed.

Lemma lookup_removelast {A} (l : list A) (i : nat) x :
  removelast l !! i = Some x -> l !! i = Some x.
Proof.
  destruct (last l) as [y|] eqn:Hl.
  - apply last_split in Hl. intros H. rewrite Hl. by apply lookup_app_l_Some.
  - apply last_None in Hl. by subst l.
Qed.

Lemma Forall_removelast {A} (P : A -> Prop) (l : list A) :
  Forall P l -> Forall P (removelast l).
Proof.
  rewrite !Forall_lookup. intros H i x Hx. apply (H i). by apply lookup_removelast.
Qed.

Section Stack.
Variable levels : gmap string LevelData.

Lemma Stacked_ext (p : Puzzle) (s s' : Session) :
  boards s' = boards s -> grids s' = grids s -> Stacked p s -> Stacked p s'.
Proof. intros Hb Hg [H1 H2 H3 H4]. constructor; rewrite ?Hb, ?Hg; done. Qed.

Lemma commit_Stacked (p : Puzzle) (r : Runtime) (e : Event) :
  Inv p r -> wellPlaced (length (numbers p)) (numbers p) ->
  Stacked p (session r) -> Stacked p (session (commit levels r e)).
Proof.
  intros HI Hp HS.
  destruct (commit_boards levels p r e HI)
    as [(Ha & Hh & Hg)|[(slot & now & random & first & op & second & res
                          & _ & Hred & Hb & Hg)
                       |[(_ & Hne & Hb & Hg)|(now & _ & Hb & Hg)]]].
  - apply (Stacked_ext p (session r)); [| |done].
    + unfold boards, tiles. by rewrite Ha, Hh.
    + unfold grids. by rewrite Hh, Hg.
  - destruct HS as [H1 H2 H3 H4].
    assert (Hfirst : first ∈ tiles (session r))
      by (apply (inv_selected _ _ HI); apply Hred).
    assert (Hsecond : second ∈ tiles (session r))
      by (eapply displayGrid_member; apply Hred).
    assert (Htop : wellPlaced (length (numbers p)) (tiles (session r))).
    { rewrite Forall_lookup in H4. apply (H4 _ _ (boards_top (session r))). }
    constructor; rewrite ?Hb, ?Hg.
    + apply Forall_app. split; [done|]. apply Forall_singleton.
      unfold grids in H1. rewrite Forall_app, Forall_singleton in H1.
      by destruct H1.
    + revert H2. by destruct (boards (session r)).
    + intros i b Hi. apply lookup_app_Some in Hi as [Hi|[Hlen Hi]];
        [by apply H3|].
      apply list_lookup_singleton_Some in Hi as [Hi <-].
      pose proof (H3 _ _ (boards_top (session r))) as Hd.
      pose proof (afterReduction_length (tiles (session r)) now random
                    first second res Hfirst Hsecond (red_distinct _ _ _ _ _ _ Hred)).
      rewrite boards_length in *. lia.
    + apply Forall_app. split; [done|]. apply Forall_singleton.
      by apply afterReduction_wellPlaced.
  - destruct HS as [H1 H2 H3 H4].
    constructor; rewrite ?Hb, ?Hg.
    + by apply Forall_removelast.
    + revert H2. unfold boards.
      destruct (gameHistory (session r)) as [|g h]; [done|].
      cbn. by destruct (map _ h ++ _) eqn:E;
        [destruct (map (λ g0, elems (saved_numbers g0)) h)|].
    + intros i b Hi. apply H3. by apply lookup_removelast.
    + by apply Forall_removelast.
  - constructor; rewrite ?Hb, ?Hg.
    + by apply Forall_singleton.
    + done.
    + intros i b Hi. apply list_lookup_singleton_Some in Hi as [-> <-]. lia.
    + by apply Forall_singleton.
Qed.

End Stack.

Section Reach.
Variable levels : gmap string LevelData.

Lemma step_Stacked (p : Puzzle) (r : Runtime) (e : Event) :
  Inv p r -> wellPlaced (length (numbers p)) (numbers p) ->
  Stacked p (session r) -> Stacked p (session (step levels r e)).
Proof.
  intros HI Hp HS. destruct (step_cells levels r e) as [w ->].
  apply (Stacked_ext p (session (commit levels r e))); [done..|].
  by apply commit_Stacked.
Qed.

Lemma run_Stacked (p : Puzzle) (events : list Event) :
  wellPlaced (length (numbers p)) (numbers p) ->
  forall r, Inv p r -> Stacked p (session r) ->
            Stacked p (session (run levels r events)).
Proof.
  intros Hp. induction events as [|e events IH]; intros r HI HS; cbn; [done|].
  apply IH; [by apply step_Inv | by apply step_Stacked].
Qed.

Lemma generated_wellPlaced (now levelNum : Z) :
  let puzzle := GameLogic.generatePuzzle levels now levelNum in
  wellPlaced (length (numbers puzzle)) (numbers puzzle).
Proof.
  cbn zeta.
  pose proof (generatePuzzle_positions levels now levelNum) as Hpos.
  cbn zeta in Hpos.
  split.
  - rewrite Hpos. apply (NoDup_fmap_2 _), NoDup_seq.
  - intros t Ht.
    assert (Hin : position t ∈ map position
                    (numbers (GameLogic.generatePuzzle levels now levelNum)))
      by (apply list_elem_of_fmap; by exists t).
    rewrite Hpos in Hin. apply list_elem_of_fmap in Hin as (i & -> & Hi).
    apply elem_of_seq in Hi. lia.
Qed.

Lemma mount_grid (initialLevel : option Z) (now : Z) :
  initialGridSize (session (mount levels initialLevel now))
  = Z.of_nat (length (numbers (mountedPuzzle levels initialLevel now))).
Proof.
  unfold mount.
  destruct (winCheckAfter_cells (initialSession initialLevel)
              (exec (puzzleEffect levels now (initialSession initialLevel) ;;
                     winEffect (initialSession initialLevel))
                 {| session := initialSession initialLevel;
                    pendingTimers := []; nextAddr := 1 |})) as [w ->].
  reflexivity.
Qed.

Lemma mount_Stacked (initialLevel : option Z) (now : Z) :
  Stacked (mountedPuzzle levels initialLevel now)
    (session (mount levels initialLevel now)).
Proof.
  destruct (mount_tiles levels initialLevel now) as [Ht Hh].
  pose proof (mount_grid initialLevel now) as Hg.
  pose proof (generated_wellPlaced now (level (initialSession initialLevel)))
    as Hp.
  constructor; unfold boards, grids; rewrite Hh, ?Ht, ?Hg; cbn.
  - by apply Forall_singleton.
  - done.
  - intros i b Hi. apply list_lookup_singleton_Some in Hi as [-> <-]. lia.
  - by apply Forall_singleton.
Qed.

(** What holds of every state a mounted screen reaches. *)
Lemma reached (initialLevel : option Z) (start : Z) (events : list Event) :
  let p := mountedPuzzle levels initialLevel start in
  let r := run levels (mount levels initialLevel start) events in
  Inv p r /\ Stacked p (session r).
Proof.
  split; [apply run_Inv, mount_Inv|].
  apply run_Stacked;
    [apply generated_wellPlaced|apply mount_Inv|apply mount_Stacked].
Qed.

(** X9.  Every tile in play is on the screen: whatever has been played,
    the tiles in play sit on distinct positions inside the grid, and the
    slot at the position of a tile shows that tile. *)
Theorem tiles_are_displayed (initialLevel : option Z) (start : Z)
    (events : list Event) :
  let s := session (run levels (mount levels initialLevel start) events) in
  NoDup (map position (tiles s))
  /\ forall t, t ∈ tiles s ->
               0 <= position t < Z.of_nat (length (displayGrid s))
               /\ displayGrid s !! Z.to_nat (position t) = Some (Some t).
Proof.
  intros s. destruct (reached initialLevel start events) as [HI HS].
  fold s in HS. destruct HS as [Hg _ _ Hp].
  rewrite Forall_lookup in Hp. specialize (Hp _ _ (boards_top s)).
  destruct Hp as [Hd Hr].
  unfold grids in Hg. rewrite Forall_app, Forall_singleton in Hg.
  destruct Hg as [_ Hg].
  pose proof (length_createDisplayGrid (tiles s) (initialGridSize s)) as Hlen.
  destruct (totalPositions_bounds (initialGridSize s)) as (_ & Hfit & _).
  split; [done|]. intros t Ht. specialize (Hr t Ht).
  unfold displayGrid. split; [lia|].
  apply createDisplayGrid_here; [done..|lia].
Qed.

(** X10.  A session never holds more tiles than it started with, and every
    move on the history has cost at least one tile: tiles in play plus
    moves to undo never exceed the tiles of the puzzle. *)
Theorem play_is_bounded (initialLevel : option Z) (start : Z)
    (events : list Event) :
  let puzzle := mountedPuzzle levels initialLevel start in
  let s := session (run levels (mount levels initialLevel start) events) in
  (length (tiles s) + length (gameHistory s) <= length (numbers puzzle))%nat.
Proof.
  intros puzzle s. destruct (reached initialLevel start events) as [_ HS].
  apply (st_depth _ _ HS). apply boards_top.
Qed.

Lemma undo_pops (r : Runtime) :
  gameHistory (session r) ≠ [] ->
  length (gameHistory (session (step levels r PressUndo)))
  = pred (length (gameHistory (session r)))
  /\ selectedNumber1 (session (step levels r PressUndo)) = None
  /\ selectedOperation (session (step levels r PressUndo)) = None
  /\ selectedNumber2 (session (step levels r PressUndo)) = None.
Proof.
  intros Hne. destruct (step_cells levels r PressUndo) as [w ->].
  destruct (last (gameHistory (session r))) as [g|] eqn:Hlast;
    [|by apply last_None in Hlast].
  rewrite (commit_undo levels r g Hlast). cbn.
  apply last_split in Hlast. apply (f_equal length) in Hlast.
  rewrite length_app in Hlast. cbn in Hlast. split; [lia|done].
Qed.

Lemma undo_all (p : Puzzle) (k : nat) : forall r,
  Inv p r -> wellPlaced (length (numbers p)) (numbers p) ->
  Stacked p (session r) ->
  length (gameHistory (session r)) = k ->
  let s' := session (run levels r (replicate k PressUndo)) in
  tiles s' = numbers p
  /\ initialGridSize s' = Z.of_nat (length (numbers p))
  /\ gameHistory s' = [].
Proof.
  induction k as [|k IH]; intros r HI Hp HS Hk; cbn.
  - apply nil_length_inv in Hk. destruct HS as [Hg Hb _ _].
    unfold boards, grids in *. rewrite Hk in *. cbn in *.
    rewrite Forall_singleton in Hg. split; [congruence|done].
  - apply IH; [by apply step_Inv|done|by apply step_Stacked|].
    destruct (undo_pops r) as [Hlen _]; [by intros E; rewrite E in Hk|].
    rewrite Hlen, Hk. done.
Qed.

(** X11.  Undo pressed as often as there are moves on the history brings
    the original tiles and grid size back and leaves the history empty,
    whatever was played before; with no move on the history it changes
    nothing at all. *)
Theorem undo_all_restores_original (initialLevel : option Z) (start : Z)
    (events : list Event) :
  let puzzle := mountedPuzzle levels initialLevel start in
  let r := run levels (mount levels initialLevel start) events in
  let undone :=
    run levels r (replicate (length (gameHistory (session r))) PressUndo) in
  (tiles (session undone) = numbers puzzle
   /\ initialGridSize (session undone) = Z.of_nat (length (numbers puzzle))
   /\ gameHistory (session undone) = [])
  /\ (gameHistory (session r) = [] -> step levels r PressUndo = r).
Proof.
  intros puzzle r undone.
  destruct (reached initialLevel start events) as [HI HS].
  split.
  - apply (undo_all puzzle _ r HI); [apply generated_wellPlaced|done..].
  - intros Hnil. unfold step, commit, handle. fold r. rewrite Hnil. cbn.
    by apply winCheckAfter_same.
Qed.

End Reach.

(** ** The second selection *)

Lemma removeTimer_other (t t' : Timer) (l : list Timer) :
  t' ≠ t -> t' ∈ l -> t' ∈ removeTimer t l.
Proof.
  intros Hne. induction l as [|x l IH]; [done|]. cbn.
  intros Hin. apply elem_of_cons in Hin as [->|Hin].
  - rewrite bool_decide_eq_false_2 by done. apply list_elem_of_here.
  - case_bool_decide; [done|]. apply list_elem_of_further. by apply IH.
Qed.

Section Selection.
Variable levels : gmap string LevelData.

Lemma commit_Blinking (r : Runtime) (e : Event) :
  Blinking r -> Blinking (commit levels r e).
Proof.
  intros HB. unfold Blinking in *.
  destruct e; unfold_handlers.
  - (* a number button *)
    destruct (displayGrid (session r) !! slot) as [[numberObj|]|]; [|done|done].
    destruct (selectedNumber1 (session r)) as [first|] eqn:H1.
    + destruct (selectedOperation (session r)) as [op|] eqn:Hop.
      * destruct (selectedNumber2 (session r)) as [old|] eqn:H2.
        { rewrite bool_decide_eq_false_2 by done. cbn. unfold ret, exec. cbn.
          intros second Hs. rewrite H2 in Hs. rewrite H1, Hop. by apply HB. }
        rewrite (bool_decide_eq_true_2 (None = None)) by done.
        case_bool_decide as Hid; cbn; [|by rewrite H2].
        destruct (bool_decide (op = OpDiv)
                  && negb (GameLogic.validateDivision (value first)
                             (value numberObj))) eqn:Hinv.
        -- cbn. intros second [= <-].
           apply andb_true_iff in Hinv as [Hdiv Hval].
           apply bool_decide_eq_true_1 in Hdiv. apply negb_true_iff in Hval.
           subst op.
           split; [done|]. split; [done|].
           split; [apply elem_of_app; right; apply list_elem_of_here|].
           by exists first.
        -- pose proof (performCalculation_computes _ _ _ Hinv) as Hsome.
           destruct (GameLogic.performCalculation _ _ _); [|done]. by cbn.
      * cbn. intros second Hs. destruct (HB second Hs) as (_ & ? & _). congruence.
    + cbn. intros second Hs.
      destruct (HB second Hs) as (_ & _ & _ & f & ? & _). congruence.
  - (* an operation button *)
    repeat case_match; cbn; done.
  - (* undo *)
    repeat case_match; cbn; done.
  - (* clear *)
    repeat case_match; cbn; done.
  - (* restart *)
    repeat case_match; cbn; done.
  - (* a timer *)
    case_bool_decide as Hin; [|done]. destruct t; cbn; [|done].
    intros second Hs. destruct (HB second Hs) as (? & ? & ? & ?).
    split; [done|]. split; [done|]. split; [by apply removeTimer_other|done].
Qed.

Lemma winCheckAfter_Blinking (before : Session) (r : Runtime) :
  Blinking r -> Blinking (exec (winCheckAfter before) r).
Proof.
  intros HB. unfold Blinking in *. unfold_handlers. unfold exec. cbn.
  repeat case_match; cbn; try done.
  intros second Hs. destruct (HB second Hs) as (? & ? & ? & ?).
  split; [done|]. split; [done|].
  split; [apply elem_of_app; by left|done].
Qed.

Lemma run_Blinking (events : list Event) :
  forall r, Blinking r -> Blinking (run levels r events).
Proof.
  induction events as [|e events IH]; intros r H; cbn; [done|].
  apply IH. unfold step. by apply winCheckAfter_Blinking, commit_Blinking.
Qed.

Lemma mount_Blinking (initialLevel : option Z) (now : Z) :
  Blinking (mount levels initialLevel now).
Proof.
  unfold mount. apply winCheckAfter_Blinking.
  unfold puzzleEffect, winEffect, Blinking. cbn. done.
Qed.

(** X12.  On a screen that has been played a tile is shown as the second
    selection only while an invalid division blinks: the invalid signal is
    on, the operation is division, the two selected tiles are different
    tiles that do not divide, and the timer that ends the blink is
    pending. A tile shown as the first selection is a tile in play. *)
Theorem second_tile_only_while_blinking (initialLevel : option Z) (start : Z)
    (events : list Event) (t : NumberObject) :
  let r := run levels (mount levels initialLevel start) events in
  let s := session r in
  (getSelectionState t (selectedNumber1 s) (selectedNumber2 s) = Selected2 ->
   invalidOperation s = true
   /\ selectedOperation s = Some OpDiv
   /\ InvalidOperationTimer ∈ pendingTimers r
   /\ exists first second,
        selectedNumber1 s = Some first
        /\ selectedNumber2 s = Some second
        /\ id t = id second
        /\ id t ≠ id first
        /\ GameLogic.validateDivision (value first) (value second) = false)
  /\ (getSelectionState t (selectedNumber1 s) (selectedNumber2 s) = Selected1 ->
      exists first,
        selectedNumber1 s = Some first /\ id t = id first
        /\ first ∈ tiles s).
Proof.
  intros r s.
  pose proof (run_Blinking events _ (mount_Blinking initialLevel start)) as HB.
  pose proof (run_Inv levels _ events _ (mount_Inv levels initialLevel start))
    as HI.
  fold r in HB, HI. unfold Blinking in HB. fold s in HB.
  unfold getSelectionState, isSelected. split.
  - destruct (selectedNumber1 s) as [first|] eqn:H1.
    + case_bool_decide as Hid1; [done|].
      destruct (selectedNumber2 s) as [second|] eqn:H2; [|done].
      case_bool_decide as Hid2; [|done]. intros _.
      destruct (HB second eq_refl)
        as (Hinv & Hop & Htimer & f & [= <-] & Hne & Hval).
      split; [done|]. split; [done|]. split; [done|].
      by exists first, second.
    + destruct (selectedNumber2 s) as [second|] eqn:H2; [|done].
      destruct (HB second eq_refl) as (_ & _ & _ & f & Hf & _). done.
  - destruct (selectedNumber1 s) as [first|] eqn:H1.
    + case_bool_decide as Hid1.
      * intros _. exists first. split; [done|]. split; [done|].
        apply (inv_selected _ _ HI). by fold s.
      * by destruct (selectedNumber2 s) as [second|]; [case_bool_decide|].
    + by destruct (selectedNumber2 s) as [second|]; [case_bool_decide|].
Qed.

End Selection.

(** ** What an event changes *)

Section Frame.
Variable levels : gmap string LevelData.

Lemma step_frame (p : Puzzle) (r : Runtime) (e : Event) :
  Inv p r ->
  let s := session r in
  let s' := session (step levels r e) in
  (availableNumbers s' = availableNumbers s
   /\ initialGridSize s' = initialGridSize s
   /\ gameHistory s' = gameHistory s
   /\ gameWon s' = gameWon s)
  \/ (exists slot now random first op second res,
        e = PressNumber slot now random
        /\ Reduction s slot first op second res)
  \/ (e = PressUndo /\ gameHistory s ≠ [])
  \/ (exists now, e = PressReset now).
Proof.
  intros HI s s'.
  destruct (commit_boards levels p r e HI)
    as [(Ha & Hh & Hg)|[(slot & now & random & first & op & second & res
                          & -> & Hred & _)
                       |[(-> & Hne & _)|(now & -> & _)]]].
  - assert ((exists now, e = PressReset now)
            \/ ~ (exists now, e = PressReset now)) as [Hreset|Hreset]
      by (destruct e; try (right; by intros [? ?]); left; by eexists).
    { right. right. by right. }
    left. subst s'. unfold step.
    assert (targetNumber (session (commit levels r e)) = targetNumber s) as Ht.
    { pose proof (commit_Inv levels p r e HI) as HI'.
      subst s. by rewrite (inv_target _ _ HI'), (inv_target _ _ HI). }
    rewrite winCheckAfter_same
      by (unfold winDeps; fold s; by rewrite Ha, Ht).
    split; [done|]. split; [done|]. split; [done|].
    apply commit_keeps_won. intros now ->. apply Hreset. by exists now.
  - right. left. by exists slot, now, random, first, op, second, res.
  - right. right. by left.
  - right. right. right. by exists now.
Qed.

(** The level and the tiles after the press of Next Level, whatever the
    storage utilities answer. *)
Lemma pressNextLevel_level {S : Type} `{Storage.StorageUtils S} (now : Z)
    (app : App S) :
  let s := session (screen app) in
  let s' := session (screen (pressNextLevel levels now app)) in
  level s' = level s + 1
  /\ tiles s' = numbers (GameLogic.generatePuzzle levels now (level s + 1)).
Proof.
  intros s s'.
  set (r1 := exec (setLevel (level s + 1)) (screen app)).
  assert (Ea : screen (nextLevel s app) = r1).
  { unfold nextLevel. cbv zeta.
    destruct (Storage.await _ _ (storage app)) as [st [e|l]] eqn:E; [done|].
    unfold Storage.await in E.
    destruct (Storage.addCompletedLevel (level s) (storage app))
      as [st1 [e1|[]]]; [done|].
    destruct (Storage.setCurrentLevel (level s + 1) st1)
      as [st2 [e2|[]]]; [done|].
    by injection E as <- <-. }
  subst s'. unfold pressNextLevel. fold s. cbn [screen]. rewrite Ea.
  assert (Hlevel : level (session r1) = level s + 1) by reflexivity.
  assert (Hdeps : winDeps (session r1) = winDeps s) by reflexivity.
  destruct (effectsAfter_level_changed levels now s r1) as [w E];
    [lia|done|].
  destruct (puzzleEffect_cells levels now (session r1) r1) as [Hl Ht].
  rewrite E, level_withGameWon, tiles_withGameWon, Hl, Ht, Hlevel.
  by split.
Qed.

(** X13.  The press of Next Level raises the level by one and puts the
    tiles of the puzzle of that level in play.  Every other event of a
    screen that has been played (a press of a tile, of an operation, of
    undo, of clear or of restart, the firing of a timer) leaves the level,
    the target and the original as they are; and of these events the board
    (the tiles in play, the grid size, the history) and the won flag
    change at three only: the press of a tile that completes a valid move,
    undo with a move to undo, and restart.  Selecting, clearing, a refused
    division and the timers leave them as they are. *)
Theorem board_changes_only_by_moves {S : Type} `{Storage.StorageUtils S}
    (initialLevel : option Z) (start : Z) (events : list Event) (e : Event)
    (now : Z) (store : S) (calls : list Z) :
  let r := run levels (mount levels initialLevel start) events in
  let s := session r in
  let s' := session (step levels r e) in
  let next :=
    session (screen (pressNextLevel levels now
                       {| screen := r; storage := store;
                          levelCompleteCalls := calls |})) in
  (level next = level s + 1
   /\ tiles next = numbers (GameLogic.generatePuzzle levels now (level s + 1)))
  /\ (level s' = level s
      /\ targetNumber s' = targetNumber s
      /\ originalPuzzle s' = originalPuzzle s)
  /\ ((availableNumbers s' = availableNumbers s
       /\ initialGridSize s' = initialGridSize s
       /\ gameHistory s' = gameHistory s
       /\ gameWon s' = gameWon s)
      \/ (exists slot now random first op second res,
            e = PressNumber slot now random
            /\ Reduction s slot first op second res)
      \/ (e = PressUndo /\ gameHistory s ≠ [])
      \/ (exists now, e = PressReset now)).
Proof.
  intros r s s' next.
  pose proof (run_Inv levels _ events _ (mount_Inv levels initialLevel start))
    as HI. fold r in HI.
  pose proof (step_Inv levels _ r e HI) as HI'.
  split; [apply (pressNextLevel_level now
                   {| screen := r; storage := store;
                      levelCompleteCalls := calls |})|].
  split; [|by apply (step_frame _ r e HI)].
  subst s s'. rewrite (inv_target _ _ HI'), (inv_target _ _ HI).
  rewrite (inv_original _ _ HI'), (inv_original _ _ HI).
  split; [|done].
  destruct (step_cells levels r e) as [w ->].
  rewrite level_withGameWon. apply commit_level.
Qed.

End Frame.

(** ** The next level *)

Section NextLevel.
Variable levels : gmap string LevelData.

Lemma effectsAfter_loads (now : Z) (before : Session) (r : Runtime) :
  level (session r) ≠ level before ->
  winDeps (session r) = winDeps before ->
  exec (effectsAfter levels now before) r
  = exec (winCheckAfter (session r))
      (exec (puzzleEffect levels now (session r)) r).
Proof.
  intros Hlevel Hdeps. unfold effectsAfter, exec. cbn [snd].
  rewrite bool_decide_eq_true_2 by done.
  rewrite (bool_decide_eq_false_2 (winDeps _ ≠ winDeps _))
    by (intros Hne; by apply Hne).
  unfold bind.
  by destruct (puzzleEffect levels now (session r) r) as [u r'].
Qed.

(** The runtime after the puzzle of a level has been loaded. *)
Lemma puzzleEffect_loaded (now : Z) (s0 : Session) (r : Runtime) :
  let puzzle := GameLogic.generatePuzzle levels now (level s0) in
  exec (puzzleEffect levels now s0) r
  = {| session :=
         {| level := level (session r);
            targetNumber := target puzzle;
            availableNumbers := {| addr := nextAddr r; elems := numbers puzzle |};
            initialGridSize := Z.of_nat (length (numbers puzzle));
            originalPuzzle := Some puzzle;
            selectedNumber1 := None;
            selectedOperation := None;
            selectedNumber2 := None;
            gameWon := false;
            showLevelComplete := false;
            invalidOperation := false;
            gameHistory := [] |};
       pendingTimers := pendingTimers r;
       nextAddr := S (S (nextAddr r)) |}.
Proof.
  cbn zeta. unfold puzzleEffect.
  set (puzzle := GameLogic.generatePuzzle levels now (level s0)).
  clearbody puzzle. destruct puzzle. reflexivity.
Qed.

Lemma loaded_Inv (puzzle : Puzzle) (l : Z) (pending : list Timer) (a : nat) :
  Inv puzzle
    {| session :=
         {| level := l;
            targetNumber := target puzzle;
            availableNumbers := {| addr := a; elems := numbers puzzle |};
            initialGridSize := Z.of_nat (length (numbers puzzle));
            originalPuzzle := Some puzzle;
            selectedNumber1 := None;
            selectedOperation := None;
            selectedNumber2 := None;
            gameWon := false;
            showLevelComplete := false;
            invalidOperation := false;
            gameHistory := [] |};
       pendingTimers := pending;
       nextAddr := S (S a) |}.
Proof. constructor; field. Qed.

Lemma loaded_Stacked (puzzle : Puzzle) (s : Session) :
  wellPlaced (length (numbers puzzle)) (numbers puzzle) ->
  tiles s = numbers puzzle -> gameHistory s = [] ->
  initialGridSize s = Z.of_nat (length (numbers puzzle)) ->
  Stacked puzzle s.
Proof.
  intros Hp Ht Hh Hg.
  constructor; unfold boards, grids; rewrite Hh, ?Ht, ?Hg; cbn.
  - by apply Forall_singleton.
  - done.
  - intros i b Hi. apply list_lookup_singleton_Some in Hi as [-> <-]. lia.
  - by apply Forall_singleton.
Qed.

(** X14.  The press of Next Level on a screen that has been played:
    whatever the storage utilities answer, the screen then holds the
    puzzle of the next level with nothing selected, no history, the
    completion dialog closed and the won flag telling whether that puzzle
    is won as it stands; [onLevelComplete] has been called once with the
    new level. Play goes on from there as from a mounted screen. *)
Theorem next_level_loads_next_puzzle {S : Type} `{Storage.StorageUtils S}
    (initialLevel : option Z) (start : Z) (events : list Event) (now : Z)
    (store : S) (calls : list Z) (later : list Event) :
  let app := {| screen := run levels (mount levels initialLevel start) events;
                storage := store;
                levelCompleteCalls := calls |} in
  let s := session (screen app) in
  let app' := pressNextLevel levels now app in
  let s' := session (screen app') in
  let puzzle := GameLogic.generatePuzzle levels now (level s + 1) in
  (level s' = level s + 1
   /\ levelCompleteCalls app' = calls ++ [level s + 1])
  /\ (targetNumber s' = target puzzle
      /\ tiles s' = numbers puzzle
      /\ initialGridSize s' = Z.of_nat (length (numbers puzzle))
      /\ originalPuzzle s' = Some puzzle
      /\ gameHistory s' = [])
  /\ (selectedNumber1 s' = None
      /\ selectedOperation s' = None
      /\ selectedNumber2 s' = None
      /\ invalidOperation s' = false
      /\ showLevelComplete s' = false)
  /\ gameWon s' = GameLogic.isGameWon (numbers puzzle) (target puzzle)
  /\ (let r := run levels (screen app') later in
      Inv puzzle r
      /\ (length (tiles (session r)) + length (gameHistory (session r))
          <= length (numbers puzzle))%nat).
Proof.
  intros app s app' s' puzzle.
  destruct (reached levels initialLevel start events) as [HI _].
  set (r0 := run levels (mount levels initialLevel start) events) in *.
  set (r1 := exec (setLevel (level s + 1)) r0).
  assert (Ea : screen (nextLevel s app) = r1
               /\ levelCompleteCalls (nextLevel s app)
                  = calls ++ [level s + 1]).
  { unfold nextLevel. cbv zeta.
    destruct (Storage.await _ _ (storage app)) as [st [e|l]] eqn:E; [done|].
    unfold Storage.await in E.
    destruct (Storage.addCompletedLevel (level s) (storage app))
      as [st1 [e1|[]]]; [done|].
    destruct (Storage.setCurrentLevel (level s + 1) st1)
      as [st2 [e2|[]]]; [done|].
    by injection E as <- <-. }
  destruct Ea as [Ea1 Ea2].
  assert (Hscreen : screen app' = exec (effectsAfter levels now s) r1)
    by (subst app'; unfold pressNextLevel; fold s; by rewrite Ea1).
  assert (Hcalls : levelCompleteCalls app' = calls ++ [level s + 1])
    by (subst app'; unfold pressNextLevel; fold s; by rewrite Ea2).
  assert (Hlevel : level (session r1) = level s + 1) by reflexivity.
  assert (Hdeps : winDeps (session r1) = winDeps s) by reflexivity.
  rewrite effectsAfter_loads in Hscreen by (rewrite ?Hlevel; done || lia).
  pose proof (puzzleEffect_loaded now (session r1) r1) as Hload.
  cbn zeta in Hload. rewrite Hlevel in Hload. fold puzzle in Hload.
  set (r2 := exec (puzzleEffect levels now (session r1)) r1) in *.
  assert (Hne : winDeps (session r2) ≠ winDeps (session r1)).
  { rewrite Hdeps, Hload. unfold winDeps. cbn.
    pose proof (inv_current _ _ HI). intros [= E _].
    change (nextAddr r1) with (nextAddr r0) in E. subst s. cbn in *. lia. }
  pose proof (winCheckAfter_changed (session r1) r2 Hne) as Hwin.
  assert (HI2 : Inv puzzle r2).
  { rewrite Hload. apply loaded_Inv. }
  assert (HI' : Inv puzzle (screen app')).
  { rewrite Hscreen. by apply winCheckAfter_Inv. }
  assert (Hcells : s' = withGameWon
                         (GameLogic.isGameWon (numbers puzzle) (target puzzle))
                         (session r2)).
  { subst s'. rewrite Hscreen, Hwin, Hload. cbn. by rewrite orb_false_r. }
  assert (Hlater : let r := run levels (screen app') later in
                   Inv puzzle r
                   /\ (length (tiles (session r))
                       + length (gameHistory (session r))
                       <= length (numbers puzzle))%nat).
  { intros r. split; [by apply run_Inv|].
    assert (HS : Stacked puzzle (session r)).
    { apply run_Stacked; [apply generated_wellPlaced|done|].
      fold s'. rewrite Hcells, Hload.
      apply loaded_Stacked; [apply generated_wellPlaced|done..]. }
    apply (st_depth _ _ HS). apply boards_top. }
  split; [|split; [|split; [|split; [|exact Hlater]]]];
    clear Hlater; rewrite ?Hcells, ?Hload; done.
Qed.

End NextLevel.

(** ** The completion dialog *)

Section Dialog.
Variable levels : gmap string LevelData.

Lemma commit_Announced (r : Runtime) (e : Event) :
  Announced r -> Announced (commit levels r e).
Proof.
  intros HA. unfold Announced in *.
  destruct e as [slot now random|op| | |now|t]; unfold_handlers.
  1-5: repeat case_match; cbn;
    first [done | exact HA
          | intros Hwon; destruct (HA Hwon) as [Hshown|Hpending];
            [by left|right; rewrite ?elem_of_app; by auto]].
  case_bool_decide as Hin; [|exact HA]. destruct t; cbn.
  - by left.
  - intros Hwon. destruct (HA Hwon) as [Hshown|Hpending]; [by left|right].
    by apply removeTimer_other.
Qed.

Lemma winCheckAfter_Announced (before : Session) (r : Runtime) :
  Announced r -> Announced (exec (winCheckAfter before) r).
Proof.
  intros HA. unfold Announced in *. unfold_handlers. unfold exec. cbn.
  repeat case_match; cbn; try done.
  intros _. right. apply elem_of_app. right. apply list_elem_of_here.
Qed.

Lemma run_Announced (events : list Event) :
  forall r, Announced r -> Announced (run levels r events).
Proof.
  induction events as [|e events IH]; intros r H; cbn; [done|].
  apply IH. unfold step. by apply winCheckAfter_Announced, commit_Announced.
Qed.

Lemma mount_Announced (initialLevel : option Z) (now : Z) :
  Announced (mount levels initialLevel now).
Proof.
  unfold mount. apply winCheckAfter_Announced.
  unfold puzzleEffect, winEffect, Announced. cbn. done.
Qed.

(** X15.  A win is always announced: on a screen that has been played,
    while the won flag is set the completion dialog is shown or the timer
    that shows it is pending; and when that timer fires the dialog is
    shown. *)
Theorem every_win_is_announced (initialLevel : option Z) (start : Z)
    (events : list Event) :
  let r := run levels (mount levels initialLevel start) events in
  (gameWon (session r) = true ->
   showLevelComplete (session r) = true
   \/ ShowLevelCompleteTimer ∈ pendingTimers r)
  /\ (ShowLevelCompleteTimer ∈ pendingTimers r ->
      showLevelComplete
        (session (step levels r (TimerFires ShowLevelCompleteTimer))) = true).
Proof.
  intros r. split.
  - apply (run_Announced events _ (mount_Announced initialLevel start)).
  - intros Hin.
    destruct (step_cells levels r (TimerFires ShowLevelCompleteTimer))
      as [w ->].
    unfold commit, handle. by rewrite bool_decide_eq_true_2.
Qed.

End Dialog.

(** ** The ids of the tiles *)

(** A printed integer starts with a digit or a sign, the ids of a
    generated puzzle with a letter. *)
Lemma uint_head (d : Decimal.uint) :
  d ≠ Decimal.Nil ->
  exists c rest, NilEmpty.string_of_uint d = String c rest
                 /\ c ≠ "l"%char /\ c ≠ "f"%char.
Proof. destruct d; intros Hd; [done|by eexists _, _..]. Qed.

Lemma toString_head (z : Z) :
  exists c rest, toString z = String c rest /\ c ≠ "l"%char /\ c ≠ "f"%char.
Proof.
  unfold toString, NilZero.string_of_int.
  destruct (to_int_proper z) as [Hp Hn].
  destruct (Z.to_int z) as [d|d]; unfold NilZero.string_of_uint.
  - destruct d; [by destruct Hp|by eexists _, _..].
  - by eexists _, _.
Qed.

Section Ids.
Variable levels : gmap string LevelData.

Lemma generatePuzzle_id_letter (now levelNum : Z) (t : NumberObject)
    (now' : Z) (random : string) :
  t ∈ numbers (GameLogic.generatePuzzle levels now levelNum) ->
  id t ≠ (toString now' ++ "_" ++ random)%string.
Proof.
  destruct (generatePuzzle_shape levels now levelNum)
    as (prefix & values & tgt & Hprefix & E & _).
  rewrite E. cbn. intros Hin.
  apply elem_of_lookup_imap in Hin as (i & v & -> & _). cbn.
  destruct (toString_head now') as (c & rest & -> & Hl & Hf).
  intros H. rewrite (string_app_cons c) in H.
  destruct Hprefix as [-> | ->]; rewrite string_app_cons in H;
    injection H as H _; by subst c.
Qed.

Lemma IdsIn_mono (used used' : list string) (s : Session) :
  (forall x, x ∈ used -> x ∈ used') -> IdsIn used s -> IdsIn used' s.
Proof.
  intros Hsub HU. unfold IdsIn in *. eapply Forall_impl; [exact HU|].
  intros b [Hd Hin]. split; [done|]. intros t Ht. by apply Hsub, Hin.
Qed.

Lemma afterReduction_ids (used : list string) (l : list NumberObject)
    (now : Z) (random : string) (first second : NumberObject) (res : Z) :
  NoDup (map id l) -> (forall t, t ∈ l -> id t ∈ used) ->
  (toString now ++ "_" ++ random)%string ∉ used ->
  let b := afterReduction l now random first second res in
  NoDup (map id b)
  /\ forall t, t ∈ b -> id t ∈ (toString now ++ "_" ++ random)%string :: used.
Proof.
  intros Hd Hin Hnew. cbn zeta. unfold afterReduction. split.
  - rewrite map_app. apply NoDup_app. split; [by apply NoDup_map_filter|].
    split; [|destruct (res >? 0); [apply NoDup_singleton|apply NoDup_nil_2]].
    intros x Hx Hx'. destruct (res >? 0); [|by apply elem_of_nil in Hx'].
    cbn in Hx'. apply list_elem_of_singleton in Hx'. subst x.
    apply list_elem_of_fmap in Hx as (u & Hu & Hu').
    apply list_elem_of_filter in Hu' as [_ Hu'].
    apply Hnew. rewrite Hu. by apply Hin.
  - intros t Ht. apply elem_of_app in Ht as [Ht|Ht].
    + apply list_elem_of_filter in Ht as [_ Ht].
      apply list_elem_of_further. by apply Hin.
    + destruct (res >? 0); [|by apply elem_of_nil in Ht].
      apply list_elem_of_singleton in Ht. subst t. apply list_elem_of_here.
Qed.

Lemma step_IdsIn (p : Puzzle) (r : Runtime) (e : Event) (used : list string) :
  Inv p r -> IdsIn used (session r) ->
  NoDup (map id (numbers p)) -> (forall t, t ∈ numbers p -> id t ∈ used) ->
  (forall x, x ∈ pressIds [e] -> x ∉ used) ->
  IdsIn (pressIds [e] ++ used) (session (step levels r e)).
Proof.
  intros HI HU Hpd Hpu Hfresh.
  assert (Hsub : forall x, x ∈ used -> x ∈ pressIds [e] ++ used)
    by (intros x Hx; apply elem_of_app; by right).
  destruct (step_cells levels r e) as [w ->].
  unfold IdsIn. rewrite boards_withGameWon.
  destruct (commit_boards levels p r e HI)
    as [(Ha & Hh & Hg)|[(slot & now & random & first & op & second & res
                          & -> & Hred & Hb & _)
                       |[(_ & Hne & Hb & _)|(now & _ & Hb & _)]]].
  - replace (boards (session (commit levels r e))) with (boards (session r))
      by (unfold boards, tiles; by rewrite Ha, Hh).
    by apply (IdsIn_mono used).
  - rewrite Hb. apply Forall_app. split; [by apply (IdsIn_mono used)|].
    apply Forall_singleton.
    unfold IdsIn in HU. rewrite Forall_lookup in HU.
    destruct (HU _ _ (boards_top (session r))) as [Hd Hin].
    apply afterReduction_ids; [done..|].
    apply Hfresh. cbn. apply list_elem_of_here.
  - rewrite Hb. apply Forall_removelast. by apply (IdsIn_mono used).
  - rewrite Hb. apply Forall_singleton. split; [done|].
    intros t Ht. by apply Hsub, Hpu.
Qed.

Lemma pressIds_cons (e : Event) (events : list Event) :
  pressIds (e :: events) = pressIds [e] ++ pressIds events.
Proof. unfold pressIds. cbn. by destruct e. Qed.

Lemma run_IdsIn (p : Puzzle) (events : list Event) :
  forall (r : Runtime) (used : list string),
    Inv p r -> IdsIn used (session r) ->
    NoDup (map id (numbers p)) -> (forall t, t ∈ numbers p -> id t ∈ used) ->
    NoDup (pressIds events) ->
    (forall x, x ∈ pressIds events -> x ∉ used) ->
    exists used', IdsIn used' (session (run levels r events)).
Proof.
  induction events as [|e events IH];
    intros r used HI HU Hpd Hpu Hnd Hfresh; cbn; [by exists used|].
  rewrite pressIds_cons in Hnd, Hfresh.
  apply NoDup_app in Hnd as (_ & Hdisjoint & Hnd).
  apply (IH (step levels r e) (pressIds [e] ++ used)).
  - by apply step_Inv.
  - apply (step_IdsIn p); [done..|].
    intros x Hx. apply Hfresh. apply elem_of_app. by left.
  - done.
  - intros t Ht. apply elem_of_app. right. by apply Hpu.
  - done.
  - intros x Hx Hin. apply elem_of_app in Hin as [Hin|Hin].
    + by apply (Hdisjoint x).
    + apply (Hfresh x); [apply elem_of_app; by right|done].
Qed.

(** X16.  As long as no two presses of a number button draw the same pair
    of clock and random number, the tiles in play carry pairwise different
    ids, and so do the tiles of every board kept for undo: the id of a
    result tile starts with a digit or a sign, the ids of the puzzle with
    a letter. *)
Theorem tile_ids_stay_distinct (initialLevel : option Z) (start : Z)
    (events : list Event) :
  NoDup (pressIds events) ->
  let s := session (run levels (mount levels initialLevel start) events) in
  NoDup (map id (tiles s))
  /\ Forall (fun g => NoDup (map id (elems (saved_numbers g))))
       (gameHistory s).
Proof.
  intros Hnd s.
  set (p := mountedPuzzle levels initialLevel start).
  destruct (mount_tiles levels initialLevel start) as [Ht Hh].
  destruct (run_IdsIn p events (mount levels initialLevel start)
              (map id (numbers p))) as [used HU].
  - apply mount_Inv.
  - unfold IdsIn, boards. rewrite Hh, Ht. cbn. apply Forall_singleton.
    split; [apply generatePuzzle_ids|].
    intros t Hin. apply list_elem_of_fmap. by exists t.
  - apply generatePuzzle_ids.
  - intros t Hin. apply list_elem_of_fmap. by exists t.
  - done.
  - intros x Hx Hin. unfold pressIds in Hx.
    apply list_elem_of_omap in Hx as (e & _ & He).
    destruct e as [slot now random| | | | |]; try done. injection He as <-.
    apply list_elem_of_fmap in Hin as (t & Hid & Hin).
    by apply (generatePuzzle_id_letter _ _ t now random) in Hin.
  - fold s in HU. unfold IdsIn, boards in HU.
    apply Forall_app in HU as [Hsaved Htop].
    apply Forall_singleton in Htop as [Htop _]. split; [done|].
    rewrite Forall_fmap in Hsaved. eapply Forall_impl; [exact Hsaved|].
    by intros g [Hg _].
Qed.

End Ids.

(** * Further properties of the storage service *)

(** ** The JSON codec of the in-memory backend *)

Lemma noComma_uint (d : Decimal.uint) :
  noComma (NilEmpty.string_of_uint d) = true.
Proof. induction d; cbn; done. Qed.

Lemma toString_noComma (z : Z) : noComma (toString z) = true.
Proof.
  unfold toString, NilZero.string_of_int.
  destruct (Z.to_int z) as [d|d]; unfold NilZero.string_of_uint;
    destruct d; cbn; try done; apply noComma_uint.
Qed.

Lemma toString_nonempty (z : Z) : toString z ≠ ""%string.
Proof.
  intros H. pose proof (toString_read z) as Hr. rewrite H in Hr. cbn in Hr.
  discriminate Hr.
Qed.

Lemma string_app_assoc (a b c : string) :
  String.append (String.append a b) c = String.append a (String.append b c).
Proof.
  induction a as [|x a IH]; [done|]. rewrite !string_app_cons. by rewrite IH.
Qed.

Lemma string_app_empty_r (a : string) : String.append a "" = a.
Proof.
  induction a as [|x a IH]; [done|]. rewrite string_app_cons. by rewrite IH.
Qed.

Lemma splitCommas_app (word rest current : string) :
  noComma word = true ->
  Storage.splitCommas current (String.append word rest)
  = Storage.splitCommas (String.append current word) rest.
Proof.
  revert current. induction word as [|c word IH]; intros current Hw.
  - by rewrite string_app_nil, string_app_empty_r.
  - cbn in Hw. apply andb_true_iff in Hw as [Hc Hw].
    rewrite string_app_cons. cbn.
    destruct (Ascii.eqb c ","%char); [done|].
    rewrite IH by done. f_equal.
    rewrite string_app_assoc. by rewrite string_app_cons, string_app_nil.
Qed.

Lemma splitCommas_concat (words : list string) :
  words ≠ [] ->
  Forall (fun word => noComma word = true) words ->
  Storage.splitCommas "" (String.concat "," words) = words.
Proof.
  induction words as [|word words IH]; [done|]. intros _ Hw.
  apply Forall_cons in Hw as [Hword Hwords].
  destruct words as [|next words].
  - cbn. rewrite <- (string_app_empty_r word) at 1.
    rewrite splitCommas_app by done. by rewrite string_app_nil.
  - change (String.concat "," (word :: next :: words))
      with (String.append word
              (String.append "," (String.concat "," (next :: words)))).
    rewrite splitCommas_app by done. rewrite string_app_nil.
    rewrite string_app_cons, string_app_nil. cbn [Storage.splitCommas].
    cbn [Ascii.eqb Bool.eqb]. by rewrite IH.
Qed.

Lemma substring_prefix (a b : string) :
  substring 0 (String.length a) (String.append a b) = a.
Proof.
  induction a as [|c a IH].
  - rewrite string_app_nil. by destruct b.
  - rewrite string_app_cons. cbn [String.length substring]. by rewrite IH.
Qed.

Lemma substring_last (a : string) (c : ascii) :
  substring (String.length a) 1 (String.append a (String c "")) = String c "".
Proof.
  induction a as [|x a IH]; [done|].
  rewrite string_app_cons. cbn [String.length substring]. apply IH.
Qed.

Lemma concat_nonempty (words : list string) :
  words ≠ [] -> Forall (fun word => word ≠ ""%string) words ->
  String.concat "," words ≠ ""%string.
Proof.
  destruct words as [|word [|next words]]; [done| |]; intros _ Hw;
    apply Forall_cons in Hw as [Hword _].
  - done.
  - change (String.concat "," (word :: next :: words))
      with (String.append word
              (String.append "," (String.concat "," (next :: words)))).
    destruct word; [done|]. by rewrite string_app_cons.
Qed.

Lemma mapM_parseInteger (l : list Z) :
  mapM Storage.parseInteger (map toString l) = Some l.
Proof.
  induction l as [|z l IH]; [done|].
  change (map toString (z :: l)) with (toString z :: map toString l).
  change ((Storage.parseInteger (toString z)
             ≫= (fun x => mapM Storage.parseInteger (map toString l)
                           ≫= (fun k => mret (x :: k))))
          = Some (z :: l)).
  rewrite IH. unfold Storage.parseInteger. by rewrite toString_read.
Qed.

(** What the backend writes for a list, it reads back as the list. *)
Lemma parseArray_stringifyArray (l : list Z) :
  Storage.parseArray (Storage.stringifyArray l) = Some l.
Proof.
  unfold Storage.stringifyArray. rewrite string_app_cons, string_app_nil.
  set (inner := String.concat "," (map toString l)).
  unfold Storage.parseArray.
  rewrite string_length_app. cbn [String.length].
  rewrite Nat.add_1_r.
  rewrite substring_last. cbn [String.eqb Ascii.eqb Bool.eqb].
  rewrite substring_prefix.
  destruct l as [|z l]; [done|].
  destruct (String.eqb_spec inner "") as [E|_].
  - exfalso. revert E. apply concat_nonempty; [done|].
    apply Forall_forall. intros word Hin.
    apply list_elem_of_fmap in Hin as (x & -> & _). apply toString_nonempty.
  - subst inner. rewrite splitCommas_concat.
    + apply mapM_parseInteger.
    + done.
    + apply Forall_forall. intros word Hin.
      apply list_elem_of_fmap in Hin as (x & -> & _). apply toString_noComma.
Qed.

Lemma stringifyArray_nonempty (l : list Z) :
  Storage.stringifyArray l ≠ ""%string.
Proof. unfold Storage.stringifyArray. by rewrite string_app_cons. Qed.

(** ** The service over any backend *)

(** The in-memory backend is lawful. *)
Lemma memory_lawful : LawfulBackend Storage.MemoryStore.
Proof.
  split.
  - intros key st. cbn. unfold Storage.memory_getItem.
    by destruct (Storage.reachable st).
  - intros key text st st'. cbn.
    unfold Storage.memory_setItem, Storage.memory_getItem.
    destruct (Storage.reachable st) eqn:E; [|done]. intros [= <-]. cbn.
    by rewrite lookup_insert_eq.
  - intros key other text st st'. cbn.
    unfold Storage.memory_setItem, Storage.memory_getItem.
    destruct (Storage.reachable st) eqn:E; [|done]. intros [= <-] Hne. cbn.
    by rewrite lookup_insert_ne.
  - apply parseArray_stringifyArray.
  - apply stringifyArray_nonempty.
Qed.

Section AnyBackend.

Context {S : Type} `{Storage.Backend S}.

Lemma getCompletedLevels_resolves (st : S) :
  exists l, Storage.service_getCompletedLevels st
            = ((Storage.getItem Storage.COMPLETED_LEVELS st).1, inr l).
Proof.
  unfold Storage.service_getCompletedLevels, Storage.tryCatch, Storage.await.
  destruct (Storage.getItem Storage.COMPLETED_LEVELS st)
    as [st' [e|[text|]]]; cbn;
    [by eexists| |by eexists].
  destruct (String.eqb text ""); [by eexists|].
  destruct (Storage.JSON_parse text); by eexists.
Qed.

Lemma foldl_max_spec (rest : list Z) :
  forall first,
    foldl Z.max first rest ∈ first :: rest
    /\ forall x, x ∈ first :: rest -> x <= foldl Z.max first rest.
Proof.
  induction rest as [|y rest IH]; intros first; cbn.
  - split; [apply list_elem_of_here|].
    intros x Hx. apply list_elem_of_singleton in Hx. lia.
  - destruct (IH (Z.max first y)) as [Hin Hmax]. split.
    + apply elem_of_cons in Hin as [Hin|Hin].
      * rewrite Hin. destruct (Z.max_spec first y) as [[_ ->]|[_ ->]].
        -- apply list_elem_of_further, list_elem_of_here.
        -- apply list_elem_of_here.
      * by do 2 apply list_elem_of_further.
    + intros x Hx.
      assert (Z.max first y <= foldl Z.max (Z.max first y) rest)
        by (apply Hmax; apply list_elem_of_here).
      apply elem_of_cons in Hx as [->|Hx]; [lia|].
      apply elem_of_cons in Hx as [->|Hx]; [lia|].
      apply Hmax. by apply list_elem_of_further.
Qed.

(** X17.  The reads of the progress never reject, whatever the backend
    does: a rejected read of the item and a text that does not parse count
    as no level completed. The answers of [isLevelCompleted] and
    [getHighestCompletedLevel] are those for the list [getCompletedLevels]
    answers: membership, and 0 for the empty list, else the greatest
    element. *)
Theorem progress_reads_never_reject (st : S) (level : Z) :
  exists st' completed,
    Storage.service_getCompletedLevels st = (st', inr completed)
    /\ service_isLevelCompleted level st
       = (st', inr (bool_decide (level ∈ completed)))
    /\ exists highest,
         service_getHighestCompletedLevel st = (st', inr highest)
         /\ (completed = [] /\ highest = 0
             \/ highest ∈ completed
                /\ Forall (fun l => l <= highest) completed).
Proof.
  destruct (getCompletedLevels_resolves st) as [completed E].
  exists (Storage.getItem Storage.COMPLETED_LEVELS st).1, completed.
  split; [done|]. split.
  - unfold service_isLevelCompleted, Storage.tryCatch, Storage.await.
    by rewrite E.
  - unfold service_getHighestCompletedLevel, Storage.tryCatch, Storage.await.
    rewrite E.
    eexists. split; [reflexivity|].
    destruct completed as [|first rest]; [by left|]. right.
    destruct (foldl_max_spec rest first) as [Hin Hmax].
    split; [done|]. by apply Forall_forall.
Qed.

Lemma writes_reject_small (st : S) (level : Z) :
  level < 1 ->
  Storage.service_setCurrentLevel level st = (st, inl Storage.LevelTooSmall)
  /\ Storage.service_addCompletedLevel level st
     = (st, inl Storage.LevelTooSmall).
Proof.
  intros Hlevel.
  unfold Storage.service_setCurrentLevel, Storage.service_addCompletedLevel,
    Storage.tryCatch.
  destruct (Z.ltb_spec level 1); [done|lia].
Qed.

Lemma setCurrentLevel_result (st : S) (level : Z) :
  1 <= level ->
  Storage.service_setCurrentLevel level st
  = Storage.setItem Storage.CURRENT_LEVEL (toString level) st.
Proof.
  intros Hlevel. unfold Storage.service_setCurrentLevel, Storage.tryCatch.
  destruct (Z.ltb_spec level 1); [lia|].
  by destruct (Storage.setItem Storage.CURRENT_LEVEL (toString level) st)
    as [st' [e|[]]].
Qed.

(** X18.  A level below 1 is refused by both writes with the error of the
    service, and the store is left as it was: the backend is not called.
    From level 1 on [setCurrentLevel] is the write of the decimal text of
    the level under the key of the current level, and rejects with the
    error of the backend when that write rejects. *)
Theorem level_writes_are_validated (st : S) (level : Z) :
  (level < 1 ->
   Storage.service_setCurrentLevel level st = (st, inl Storage.LevelTooSmall)
   /\ Storage.service_addCompletedLevel level st
      = (st, inl Storage.LevelTooSmall))
  /\ (1 <= level ->
      Storage.service_setCurrentLevel level st
      = Storage.setItem Storage.CURRENT_LEVEL (toString level) st).
Proof.
  unfold Storage.service_setCurrentLevel, Storage.service_addCompletedLevel,
    Storage.tryCatch.
  destruct (Z.ltb_spec level 1) as [Hsmall|Hlevel].
  - split; [done|lia].
  - split; [lia|]. intros _.
    by destruct (Storage.setItem Storage.CURRENT_LEVEL (toString level) st)
      as [st' [e|[]]].
Qed.

Context `{!LawfulBackend S}.

Lemma getCompletedLevels_keeps (st : S) :
  exists l, Storage.service_getCompletedLevels st = (st, inr l).
Proof.
  destruct (getCompletedLevels_resolves st) as [l E]. exists l.
  by rewrite getItem_keeps in E.
Qed.

Lemma getCompletedLevels_written (st st' : S) (l : list Z) :
  Storage.setItem Storage.COMPLETED_LEVELS (Storage.JSON_stringify l) st
  = (st', inr tt) ->
  Storage.service_getCompletedLevels st' = (st', inr l).
Proof.
  intros Hset. pose proof (getItem_setItem _ _ _ _ Hset) as Hget.
  pose proof (getItem_keeps Storage.COMPLETED_LEVELS st') as Hkeep.
  unfold Storage.service_getCompletedLevels, Storage.tryCatch, Storage.await.
  destruct (Storage.getItem Storage.COMPLETED_LEVELS st') as [st2 res].
  cbn in *. subst.
  destruct (String.eqb_spec (Storage.JSON_stringify l) "") as [E|_].
  - by apply JSON_stringify_nonempty in E.
  - by rewrite JSON_parse_stringify.
Qed.

Lemma getCompletedLevels_other (st st' : S) (key text : string) :
  Storage.setItem key text st = (st', inr tt) ->
  key ≠ Storage.COMPLETED_LEVELS ->
  (Storage.service_getCompletedLevels st').2
  = (Storage.service_getCompletedLevels st).2.
Proof.
  intros Hset Hne.
  assert ((Storage.getItem Storage.COMPLETED_LEVELS st').2
          = (Storage.getItem Storage.COMPLETED_LEVELS st).2)
    as Hget by (eapply getItem_setItem_other; [done|congruence]).
  unfold Storage.service_getCompletedLevels, Storage.tryCatch, Storage.await.
  destruct (Storage.getItem Storage.COMPLETED_LEVELS st') as [st2 res2].
  destruct (Storage.getItem Storage.COMPLETED_LEVELS st) as [st1 res1].
  cbn in Hget. subst.
  destruct res1 as [e|[text'|]]; cbn; [done| |done].
  destruct (String.eqb text' ""); [done|].
  by destruct (Storage.JSON_parse text').
Qed.

(** What [addCompletedLevel] does to the list of completed levels. *)
Lemma addCompletedLevel_cases (st : S) (level : Z) (completed : list Z) :
  1 <= level ->
  Storage.service_getCompletedLevels st = (st, inr completed) ->
  (Storage.service_addCompletedLevel level st = (st, inr tt)
   /\ level ∈ completed)
  \/ ((level ∉ completed)
      /\ Storage.service_addCompletedLevel level st
         = Storage.setItem Storage.COMPLETED_LEVELS
             (Storage.JSON_stringify (merge_sort Z.le (completed ++ [level]))) st).
Proof.
  intros Hlevel Hread.
  unfold Storage.service_addCompletedLevel, Storage.tryCatch, Storage.await.
  destruct (Z.ltb_spec level 1); [lia|]. rewrite Hread.
  case_bool_decide as Hin; cbn; [left|right]; split; try done.
  by destruct (Storage.setItem _ _ st) as [st' [e|[]]].
Qed.

Lemma addCompletedLevel_member (st st' : S) (level : Z) :
  Storage.service_addCompletedLevel level st = (st', inr tt) ->
  exists after,
    Storage.service_getCompletedLevels st' = (st', inr after)
    /\ level ∈ after.
Proof.
  intros Hadd.
  assert (1 <= level) as Hlevel.
  { destruct (Z.ltb_spec level 1) as [Hlt|]; [|done].
    destruct (writes_reject_small st level Hlt) as [_ E]. congruence. }
  destruct (getCompletedLevels_keeps st) as [before Hread].
  destruct (addCompletedLevel_cases st level before Hlevel Hread)
    as [[E Hin]|[Hin E]]; rewrite E in Hadd.
  - injection Hadd as <-. by exists before.
  - pose proof (getCompletedLevels_written _ _ _ Hadd) as Hafter.
    eexists. split; [exact Hafter|].
    rewrite merge_sort_Permutation. apply elem_of_app. right.
    apply list_elem_of_here.
Qed.

(** X19.  Over a lawful backend, after [addCompletedLevel] has resolved
    the level is among the completed levels that are read back. A level
    that was in the list leaves the store untouched; otherwise the list
    read back holds the levels read before and the new one, each as often
    as before, in ascending order. [isLevelCompleted] then answers true,
    and completing the level a second time changes nothing. *)
Theorem completed_level_is_recorded (st st' : S) (level : Z) :
  Storage.service_addCompletedLevel level st = (st', inr tt) ->
  exists before after,
    Storage.service_getCompletedLevels st = (st, inr before)
    /\ Storage.service_getCompletedLevels st' = (st', inr after)
    /\ level ∈ after
    /\ (st' = st /\ after = before /\ level ∈ before
        \/ (level ∉ before) /\ after ≡ₚ level :: before
           /\ StronglySorted Z.le after)
    /\ (NoDup before -> NoDup after)
    /\ service_isLevelCompleted level st' = (st', inr true)
    /\ Storage.service_addCompletedLevel level st' = (st', inr tt).
Proof.
  intros Hadd.
  assert (1 <= level) as Hlevel.
  { destruct (Z.ltb_spec level 1) as [Hlt|]; [|done].
    destruct (writes_reject_small st level Hlt) as [_ E]. congruence. }
  destruct (getCompletedLevels_keeps st) as [before Hread].
  exists before.
  destruct (addCompletedLevel_cases st level before Hlevel Hread)
    as [[E Hin]|[Hin E]]; rewrite E in Hadd.
  - injection Hadd as <-. exists before.
    split; [done|]. split; [done|]. split; [done|].
    split; [by left|]. split; [done|]. split; [|done].
    unfold service_isLevelCompleted, Storage.tryCatch, Storage.await.
    rewrite Hread.
    by rewrite bool_decide_eq_true_2.
  - pose proof (getCompletedLevels_written _ _ _ Hadd) as Hafter.
    set (after := merge_sort Z.le (before ++ [level])) in *.
    assert (after ≡ₚ level :: before) as Hperm.
    { subst after. rewrite merge_sort_Permutation.
      by rewrite Permutation_app_comm. }
    assert (level ∈ after) as Hmem by (rewrite Hperm; apply list_elem_of_here).
    exists after.
    split; [done|]. split; [done|]. split; [done|].
    split; [right; split; [done|]; split; [done|]
            ; apply StronglySorted_merge_sort; apply _|].
    split; [intros Hnd; rewrite Hperm; by apply NoDup_cons|].
    split.
    + unfold service_isLevelCompleted, Storage.tryCatch, Storage.await.
      rewrite Hafter.
      by rewrite bool_decide_eq_true_2.
    + destruct (addCompletedLevel_cases st' level after Hlevel Hafter)
        as [[E' _]|[Hout _]]; done.
Qed.


Lemma isLevelCompleted_other (st st' : S) (key text : string) (level : Z) :
  Storage.setItem key text st = (st', inr tt) ->
  key ≠ Storage.COMPLETED_LEVELS ->
  (service_isLevelCompleted level st').2
  = (service_isLevelCompleted level st).2.
Proof.
  intros Hset Hne.
  pose proof (getCompletedLevels_other _ _ _ _ Hset Hne) as Hsame.
  destruct (getCompletedLevels_keeps st) as [l E].
  destruct (getCompletedLevels_keeps st') as [l' E'].
  rewrite E, E' in Hsame. cbn in Hsame. injection Hsame as ->.
  unfold service_isLevelCompleted, Storage.tryCatch, Storage.await.
  by rewrite E, E'.
Qed.

End AnyBackend.

Section Progression.

Variable levels : gmap string LevelData.
Context {S : Type} `{Storage.Backend S} `{!LawfulBackend S}.

(** X20.  When both writes of [nextLevel] resolve, the store the press
    leaves holds the progress: the item of the current level reads as the
    new level, and the level just played is among the completed levels. *)
Theorem next_level_saves_progress (now : Z) (app : App S) (stored saved : S) :
  let s := session (screen app) in
  Storage.service_addCompletedLevel (level s) (storage app) = (stored, inr tt) ->
  Storage.service_setCurrentLevel (level s + 1) stored = (saved, inr tt) ->
  let app' := pressNextLevel levels now app in
  storage app' = saved
  /\ (Storage.getItem Storage.CURRENT_LEVEL saved).2
     = inr (Some (toString (level s + 1)))
  /\ service_isLevelCompleted (level s) saved = (saved, inr true)
  /\ 1 <= level s.
Proof.
  intros s Hadd Hset app'.
  assert (1 <= level s) as Hlevel.
  { destruct (Z.ltb_spec (level s) 1) as [Hlt|]; [|done].
    destruct (writes_reject_small (storage app) (level s) Hlt) as [_ E].
    congruence. }
  split.
  { subst app'. unfold pressNextLevel, nextLevel. fold s. cbn.
    unfold Storage.await. by rewrite Hadd, Hset. }
  rewrite setCurrentLevel_result in Hset by lia.
  split; [by apply (getItem_setItem _ _ _ _ Hset)|]. split; [|done].
  destruct (addCompletedLevel_member _ _ _ Hadd) as (after & Hafter & Hin).
  assert (Storage.CURRENT_LEVEL ≠ Storage.COMPLETED_LEVELS) as Hkeys by done.
  pose proof (isLevelCompleted_other _ _ _ _ (level s) Hset Hkeys) as Hsame.
  assert (Hdone : service_isLevelCompleted (level s) stored
                  = (stored, inr true)).
  { unfold service_isLevelCompleted, Storage.tryCatch, Storage.await.
    rewrite Hafter. by rewrite bool_decide_eq_true_2. }
  rewrite Hdone in Hsame. cbn in Hsame.
  destruct (getCompletedLevels_keeps saved) as [l E].
  unfold service_isLevelCompleted, Storage.tryCatch, Storage.await in *.
  rewrite E in *.
  cbn in *. by rewrite Hsame.
Qed.

End Progression.

(** * Concrete runs *)

(** Division of 6 by 2 and of 4 by 6. *)
Lemma division_exact_and_symmetric_witness :
  GameLogic.performCalculation 6 OpDiv 2 = Some 3
  /\ GameLogic.performCalculation 2 OpDiv 6 = Some 3
  /\ GameLogic.performCalculation 4 OpDiv 6 = None.
Proof.
  destruct (division_exact_and_symmetric 6 2 ltac:(lia) ltac:(lia))
    as (Hiff & Hvalid & _ & _ & Hsym).
  destruct (division_exact_and_symmetric 4 6 ltac:(lia) ltac:(lia))
    as (_ & _ & Hinvalid & _).
  destruct (Hvalid (proj2 Hiff eq_refl)) as [Hquot _].
  split; [exact Hquot|]. split; [by rewrite Hsym|].
  apply Hinvalid. reflexivity.
Defined.

(** Level 9999 of a table that does not hold it. *)
Lemma fallback_puzzle_witness :
  map value (numbers (GameLogic.generatePuzzle sampleLevels 1700 9999))
  = [6; 7; 8; 9]
  /\ target (GameLogic.generatePuzzle sampleLevels 1700 9999) = 13.
Proof.
  apply (fallback_puzzle sampleLevels 1700 9999);
    [vm_compute; reflexivity | reflexivity].
Defined.

(** An operation button pressed on the freshly mounted first level. *)
Lemma operation_press_without_first_tile_witness :
  step sampleLevels (mount sampleLevels (Some 1) 1700) (PressOperation OpAdd)
  = mount sampleLevels (Some 1) 1700.
Proof.
  apply (operation_press_without_first_tile sampleLevels
           (mount sampleLevels (Some 1) 1700) OpAdd).
  vm_compute. reflexivity.
Defined.

(** The third scenario: target 7, tiles 4 and 6; 4, divide, 6. *)
Lemma invalid_division_keeps_tiles_witness :
  let r := run sampleLevels (mount sampleLevels (Some 3) 1700)
             [PressNumber 0 1800 "0.5"; PressOperation OpDiv] in
  let r1 := step sampleLevels r (PressNumber 1 1900 "0.25") in
  let r2 := step sampleLevels r1 (TimerFires InvalidOperationTimer) in
  map value (tiles (session r)) = [4; 6]
  /\ invalidOperation (session r1) = true
  /\ tiles (session r2) = tiles (session r)
  /\ gameHistory (session r2) = gameHistory (session r)
  /\ selectedNumber1 (session r2) = None.
Proof.
  intros r r1 r2.
  destruct (invalid_division_keeps_tiles sampleLevels r
              {| value := 4; id := "level_3_0_1700"; position := 0 |}
              {| value := 6; id := "level_3_1_1700"; position := 1 |}
              1%nat 1900 "0.25")
    as (E1 & _ & _ & _ & E2 & Ht & Hh).
  - vm_compute. reflexivity.
  - vm_compute. reflexivity.
  - vm_compute. reflexivity.
  - vm_compute. reflexivity.
  - cbn. discriminate.
  - vm_compute. reflexivity.
  - subst r1 r2. split; [vm_compute; reflexivity|].
    split; [by rewrite E1|].
    split; [exact Ht|]. split; [exact Hh|].
    by rewrite E2.
Defined.

(** The first scenario: target 3, tiles 6, 2 and 4; 6, divide, 2, undo. *)
Lemma undo_after_reduction_witness :
  let r := run sampleLevels (mount sampleLevels (Some 1) 1700)
             [PressNumber 0 1800 "0.5"; PressOperation OpDiv] in
  let r1 := step sampleLevels r (PressNumber 1 1900 "0.25") in
  let r2 := step sampleLevels r1 PressUndo in
  map value (tiles (session r1)) = [4; 3]
  /\ tiles (session r2) = tiles (session r)
  /\ gameHistory (session r2) = gameHistory (session r).
Proof.
  intros r r1 r2.
  destruct (undo_after_reduction sampleLevels r 1%nat 1900 "0.25"
              {| value := 6; id := "level_1_0_1700"; position := 0 |}
              OpDiv
              {| value := 2; id := "level_1_1_1700"; position := 1 |}
              3)
    as (Ht & _ & _ & _ & _ & _ & Hh).
  - constructor; try (vm_compute; reflexivity). cbn. discriminate.
  - split; [vm_compute; reflexivity|]. split; [exact Ht | exact Hh].
Defined.

(** The first scenario loses one tile, the second (target 10, tiles 5 and
    5; 5, subtract, 5) loses both. *)
Lemma reduction_tile_count_witness :
  (let r := run sampleLevels (mount sampleLevels (Some 1) 1700)
              [PressNumber 0 1800 "0.5"; PressOperation OpDiv] in
   let s' := session (step sampleLevels r (PressNumber 1 1900 "0.25")) in
   length (tiles (session r)) = 3%nat
   /\ (length (tiles s') + 1 = length (tiles (session r)))%nat)
  /\ (let r := run sampleLevels (mount sampleLevels (Some 2) 1700)
                 [PressNumber 0 1800 "0.5"; PressOperation OpSub] in
      let s' := session (step sampleLevels r (PressNumber 1 1900 "0.25")) in
      length (tiles (session r)) = 2%nat
      /\ (length (tiles s') + 2 = length (tiles (session r)))%nat).
Proof.
  split.
  - intros r s'. split; [vm_compute; reflexivity|].
    destruct (reduction_tile_count sampleLevels (Some 1) 1700
                [PressNumber 0 1800 "0.5"; PressOperation OpDiv]
                1%nat 1900 "0.25"
                {| value := 6; id := "level_1_0_1700"; position := 0 |}
                OpDiv
                {| value := 2; id := "level_1_1_1700"; position := 1 |}
                3)
      as [Hpositive _].
    + apply (bool_decide_unpack _). vm_compute. exact I.
    + constructor; try (vm_compute; reflexivity). cbn. discriminate.
    + apply Hpositive. lia.
  - intros r s'. split; [vm_compute; reflexivity|].
    destruct (reduction_tile_count sampleLevels (Some 2) 1700
                [PressNumber 0 1800 "0.5"; PressOperation OpSub]
                1%nat 1900 "0.25"
                {| value := 5; id := "level_2_0_1700"; position := 0 |}
                OpSub
                {| value := 5; id := "level_2_1_1700"; position := 1 |}
                0)
      as [_ Hzero].
    + apply (bool_decide_unpack _). vm_compute. exact I.
    + constructor; try (vm_compute; reflexivity). cbn. discriminate.
    + apply Hzero. reflexivity.
Defined.

(** The fallback puzzle of level 9999: 6 plus 7 reaches the target 13. *)
Lemma won_flag_latched_witness :
  let r := run sampleLevels (mount sampleLevels (Some 9999) 1700)
             [PressNumber 0 1800 "0.5"; PressOperation OpAdd] in
  gameWon (session r) = false
  /\ gameWon (session (step sampleLevels r (PressNumber 1 1900 "0.25")))
     = true.
Proof.
  intros r. split; [vm_compute; reflexivity|].
  destruct (won_flag_latched sampleLevels (Some 9999) 1700
              [PressNumber 0 1800 "0.5"; PressOperation OpAdd]
              (PressNumber 1 1900 "0.25")) as [Hreached _].
  apply Hreached.
  exists {| value := 13; id := "1900_0.25"; position := 0 |}.
  split; [|vm_compute; reflexivity].
  apply list_elem_of_In. vm_compute. right. right. left. reflexivity.
Defined.

(** C1, the claim as stated, fails.  Level 9999 is not authored; its
    fallback puzzle has the tiles 6, 7, 8, 9 and the target 13.  Adding 6
    and 7 wins; the undo brings the four tiles back, none of them 13, and
    the won flag stays set. *)
Lemma won_after_undo_counterexample :
  let r := run sampleLevels (mount sampleLevels (Some 9999) 1700)
             [PressNumber 0 1800 "0.5"; PressOperation OpAdd;
              PressNumber 1 1900 "0.25"] in
  let s' := session (step sampleLevels r PressUndo) in
  map value (tiles (session r)) = [8; 9; 13]
  /\ map value (tiles s') = [6; 7; 8; 9]
  /\ targetNumber s' = 13
  /\ ~ (gameWon s' = true <->
        exists t, t ∈ tiles s' /\ value t = targetNumber s').
Proof.
  intros r s'.
  split; [vm_compute; reflexivity|]. split; [vm_compute; reflexivity|].
  split; [vm_compute; reflexivity|].
  intros [Hwon _].
  assert (H : GameLogic.isGameWon (tiles s') 13 = true).
  { apply isGameWon_spec. apply Hwon. vm_compute. reflexivity. }
  vm_compute in H. discriminate.
Qed.

(** The first level played for a while. *)
Lemma tile_values_stay_non_negative_witness :
  Forall (fun t => 0 <= value t)
    (tiles (session (run sampleLevels (mount sampleLevels (Some 1) 1700)
                       [PressNumber 0 1800 "0.5"; PressOperation OpSub;
                        PressNumber 2 1900 "0.25"; PressUndo;
                        PressReset 2000]))).
Proof.
  apply Forall_forall.
  destruct (tile_values_stay_non_negative sampleLevels (Some 1) 1700
              [PressNumber 0 1800 "0.5"; PressOperation OpSub;
               PressNumber 2 1900 "0.25"; PressUndo; PressReset 2000])
    as [Htiles _]; [|exact Htiles].
  apply Forall_forall. vm_compute.
  repeat (apply Forall_cons; split; [discriminate|]). constructor.
Defined.

(** C6, the claim as stated, fails.  Level 10000 is not authored and is a
    multiple of 5: its fallback puzzle has the tiles 2, 3, 4, 5 and the
    target 5, a tile of its own.  After a reduction, an undo and a restart
    the tiles are the original ones and the won flag is set. *)
Lemma restart_keeps_won_counterexample :
  let r := run sampleLevels (mount sampleLevels (Some 10000) 1700)
             [PressNumber 0 1800 "0.5"; PressOperation OpAdd;
              PressNumber 1 1900 "0.25"; PressUndo] in
  let s' := session (step sampleLevels r (PressReset 2000)) in
  map value (tiles s') = [2; 3; 4; 5]
  /\ targetNumber s' = 5
  /\ gameHistory s' = []
  /\ gameWon s' ≠ false.
Proof.
  intros r s'.
  split; [vm_compute; reflexivity|]. split; [vm_compute; reflexivity|].
  split; [vm_compute; reflexivity|].
  vm_compute. discriminate.
Qed.

(** The device storage does not answer while the first level is left. *)
Lemma progression_survives_storage_failure_witness :
  let app := {| screen := mount sampleLevels (Some 1) 1700;
                storage := {| Storage.items := ∅; Storage.reachable := false |};
                levelCompleteCalls := [] |} in
  let app' := pressNextLevel sampleLevels 2000 app in
  level (session (screen app')) = 2
  /\ levelCompleteCalls app' = [2]
  /\ map value (tiles (session (screen app'))) = [5; 5].
Proof.
  intros app app'.
  destruct (progression_survives_storage_failure sampleLevels 2000 app
              Storage.BackendFailure
              {| Storage.items := ∅; Storage.reachable := false |})
    as (_ & Hlevel & Hcalls & Htiles).
  - left. vm_compute. reflexivity.
  - split; [exact Hlevel|]. split; [exact Hcalls|].
    subst app'. rewrite Htiles. vm_compute. reflexivity.
Defined.

(** ** Further runs *)

(** Level 1 of the sample table. *)
Lemma generated_puzzle_follows_table_witness :
  let puzzle := GameLogic.generatePuzzle sampleLevels 1700 1 in
  GameLogic.levelExists sampleLevels 1 = true
  /\ map value (numbers puzzle) = [6; 2; 4]
  /\ target puzzle = 3.
Proof.
  apply (generated_puzzle_follows_table sampleLevels 1700 1
           {| level_target := 3; level_numbers := [6; 2; 4] |}).
  vm_compute. reflexivity.
Defined.

(** Level 9999, which the sample table does not hold. *)
Lemma generated_tiles_are_distinct_witness :
  let puzzle := GameLogic.generatePuzzle sampleLevels 1700 9999 in
  map position (numbers puzzle) = [0; 1; 2; 3]
  /\ puzzle = GameLogic.createFallbackPuzzle 1700 9999.
Proof.
  intros puzzle.
  destruct (generated_tiles_are_distinct sampleLevels 1700 9999)
    as (Hpos & _ & Hfallback).
  split.
  - subst puzzle. rewrite Hpos. vm_compute. reflexivity.
  - apply Hfallback. vm_compute. reflexivity.
Defined.

(** A grid of size 3 that holds two tiles, on the slots 0 and 2. *)
Lemma display_grid_layout_witness :
  let six := {| value := 6; id := "a"; position := 0 |} in
  let four := {| value := 4; id := "b"; position := 2 |} in
  let grid := fst (GameLogic.createDisplayGrid [six; four] 3) in
  Z.of_nat (length grid) = 4
  /\ grid !! 2%nat = Some (Some four)
  /\ grid !! 1%nat = Some None.
Proof.
  intros six four grid.
  destruct (display_grid_layout [six; four] 3)
    as (Hlen & _ & _ & _ & Hfree & Hshow).
  split; [exact Hlen|]. split.
  - apply (Hshow ltac:(apply (bool_decide_unpack _); vm_compute; exact I) four).
    + apply list_elem_of_further, list_elem_of_here.
    + vm_compute. split; [discriminate|reflexivity].
  - apply Hfree.
    + vm_compute. lia.
    + intros t Ht. apply elem_of_cons in Ht as [->|Ht]; [discriminate|].
      apply list_elem_of_singleton in Ht as ->. discriminate.
Defined.

(** Five tiles: three columns and two rows. *)
Lemma grid_dimensions_agree_witness :
  let dims := GameLogic.getGridDimensions 5 in
  cols dims * rows dims = totalPositions 5 /\ 5 <= cols dims * rows dims.
Proof.
  destruct (grid_dimensions_agree 5) as [H _]. apply H. lia.
Defined.

(** The first scenario after 6 divided by 2. *)
Lemma tiles_are_displayed_witness :
  let s := session (run sampleLevels (mount sampleLevels (Some 1) 1700)
                      [PressNumber 0 1800 "0.5"; PressOperation OpDiv;
                       PressNumber 1 1900 "0.25"]) in
  map value (tiles s) = [4; 3]
  /\ Forall (fun t => displayGrid s !! Z.to_nat (position t) = Some (Some t))
       (tiles s).
Proof.
  intros s. split; [vm_compute; reflexivity|].
  destruct (tiles_are_displayed sampleLevels (Some 1) 1700
              [PressNumber 0 1800 "0.5"; PressOperation OpDiv;
               PressNumber 1 1900 "0.25"]) as [_ H].
  apply Forall_forall. intros t Ht. by apply H.
Defined.

(** Undo on the mounted first scenario. *)
Lemma undo_all_restores_original_witness :
  let r := run sampleLevels (mount sampleLevels (Some 1) 1700) [] in
  step sampleLevels r PressUndo = r.
Proof.
  destruct (undo_all_restores_original sampleLevels (Some 1) 1700 []) as [_ H].
  cbv zeta in *. apply H. vm_compute. reflexivity.
Defined.

(** 6 divided by 2. *)
Lemma validateMove_accepts_computable_witness :
  validateMove (Some {| value := 6; id := "a"; position := 0 |}) (Some OpDiv)
    (Some {| value := 2; id := "b"; position := 1 |}) = true.
Proof.
  destruct (validateMove_accepts_computable
              {| value := 6; id := "a"; position := 0 |}
              {| value := 2; id := "b"; position := 1 |} OpDiv) as [[_ H] _].
  apply H. split; [discriminate|]. exists 3. vm_compute. reflexivity.
Defined.

(** The first scenario: 6, divide, then the press of 2. *)
Lemma screen_reduces_valid_moves_witness :
  let r := run sampleLevels (mount sampleLevels (Some 1) 1700)
             [PressNumber 0 1800 "0.5"; PressOperation OpDiv] in
  let s' := session (step sampleLevels r (PressNumber 1 1900 "0.25")) in
  exists first op res,
    selectedNumber1 (session r) = Some first
    /\ selectedOperation (session r) = Some op
    /\ GameLogic.performCalculation (value first) op 2 = Some res
    /\ tiles s'
       = afterReduction (tiles (session r)) 1900 "0.25" first
           {| value := 2; id := "level_1_1_1700"; position := 1 |} res
    /\ map (fun g => elems (saved_numbers g)) (gameHistory s')
       = map (fun g => elems (saved_numbers g)) (gameHistory (session r))
         ++ [tiles (session r)].
Proof.
  intros r s'.
  pose proof (screen_reduces_valid_moves sampleLevels r 1%nat 1900 "0.25"
                {| value := 2; id := "level_1_1_1700"; position := 1 |}
                ltac:(vm_compute; reflexivity) ltac:(vm_compute; reflexivity))
    as H.
  cbv zeta in H.
  assert (E : validateMove (selectedNumber1 (session r))
                (selectedOperation (session r))
                (Some {| value := 2; id := "level_1_1_1700"; position := 1 |})
              = true) by (vm_compute; reflexivity).
  rewrite E in H. exact H.
Defined.

(** Level 12. *)
Lemma difficulty_score_range_witness : getDifficultyScore 12 = 3.
Proof.
  destruct (difficulty_score_range 12 ltac:(lia)) as (_ & _ & _ & H).
  specialize (H ltac:(lia)). lia.
Defined.

(** The tiles of the first scenario: 6 divided by 2 is the target. *)
Lemma hint_is_closest_witness :
  let l := [{| value := 6; id := "a"; position := 0 |};
            {| value := 2; id := "b"; position := 1 |};
            {| value := 4; id := "c"; position := 2 |}] in
  generateHint l 3 = Some "Try 6 ÷ 2 = 3"%string
  /\ exists i j num1 num2 op result,
       (i < j)%nat /\ l !! i = Some num1 /\ l !! j = Some num2
       /\ GameLogic.performCalculation (value num1) op (value num2)
          = Some result
       /\ "Try 6 ÷ 2 = 3"%string = hintText num1 op num2 result
       /\ forall i' j' num1' num2' op' result',
            (i' < j')%nat -> l !! i' = Some num1' -> l !! j' = Some num2' ->
            GameLogic.performCalculation (value num1') op' (value num2')
            = Some result' ->
            Z.abs (result - 3) <= Z.abs (result' - 3).
Proof.
  intros l. split; [vm_compute; reflexivity|].
  destruct (hint_is_closest l 3) as [_ H]. apply H. vm_compute. reflexivity.
Defined.

(** The third scenario: 4 divided by 6 blinks. *)
Lemma second_tile_only_while_blinking_witness :
  let r := run sampleLevels (mount sampleLevels (Some 3) 1700)
             [PressNumber 0 1800 "0.5"; PressOperation OpDiv;
              PressNumber 1 1900 "0.25"] in
  invalidOperation (session r) = true
  /\ selectedOperation (session r) = Some OpDiv
  /\ InvalidOperationTimer ∈ pendingTimers r.
Proof.
  intros r.
  destruct (second_tile_only_while_blinking sampleLevels (Some 3) 1700
              [PressNumber 0 1800 "0.5"; PressOperation OpDiv;
               PressNumber 1 1900 "0.25"]
              {| value := 6; id := "level_3_1_1700"; position := 1 |})
    as [H _].
  destruct H as (Hinvalid & Hop & Htimer & _); [vm_compute; reflexivity|].
  split; [exact Hinvalid|]. split; [exact Hop|exact Htimer].
Defined.

(** Level 0 on the in-memory backend. *)
Lemma level_writes_are_validated_witness :
  let st := {| Storage.items := ∅; Storage.reachable := true |} in
  Storage.service_setCurrentLevel 0 st = (st, inl Storage.LevelTooSmall)
  /\ Storage.service_addCompletedLevel 0 st = (st, inl Storage.LevelTooSmall).
Proof.
  intros st. destruct (level_writes_are_validated st 0) as [H _].
  apply H. lia.
Defined.

(** Level 3 completed after the levels 1 and 5, on the in-memory backend. *)
Lemma completed_level_is_recorded_witness :
  let st := {| Storage.items := {[ Storage.COMPLETED_LEVELS := "[1,5]"%string ]};
               Storage.reachable := true |} in
  let st' := (Storage.service_addCompletedLevel 3 st).1 in
  Storage.service_getCompletedLevels st' = (st', inr [1; 3; 5])
  /\ service_isLevelCompleted 3 st' = (st', inr true)
  /\ Storage.service_addCompletedLevel 3 st' = (st', inr tt).
Proof.
  intros st st'.
  destruct (@completed_level_is_recorded Storage.MemoryStore _ memory_lawful
              st st' 3 ltac:(vm_compute; reflexivity))
    as (before & after & _ & _ & _ & _ & _ & Hdone & Hagain).
  split; [vm_compute; reflexivity|]. split; [exact Hdone|exact Hagain].
Defined.

(** The first level left on an in-memory backend that answers. *)
Lemma next_level_saves_progress_witness :
  let app := {| screen := mount sampleLevels (Some 1) 1700;
                storage := {| Storage.items := ∅; Storage.reachable := true |};
                levelCompleteCalls := [] |} in
  let app' := pressNextLevel sampleLevels 2000 app in
  (Storage.getItem Storage.CURRENT_LEVEL (storage app')).2
  = inr (Some "2"%string)
  /\ service_isLevelCompleted 1 (storage app') = (storage app', inr true).
Proof.
  intros app app'.
  set (stored := (Storage.service_addCompletedLevel 1 (storage app)).1).
  set (saved := (Storage.service_setCurrentLevel 2 stored).1).
  destruct (@next_level_saves_progress sampleLevels Storage.MemoryStore _
              memory_lawful 2000 app stored saved
              ltac:(vm_compute; reflexivity) ltac:(vm_compute; reflexivity))
    as (Hstore & Hcurrent & Hdone & _).
  fold app' in Hstore. rewrite Hstore. split; [exact Hcurrent|exact Hdone].
Defined.

(** The first scenario won by 6 divided by 2. *)
Lemma every_win_is_announced_witness :
  let r := run sampleLevels (mount sampleLevels (Some 1) 1700)
             [PressNumber 0 1800 "0.5"; PressOperation OpDiv;
              PressNumber 1 1900 "0.25"] in
  gameWon (session r) = true
  /\ (showLevelComplete (session r) = true
      \/ ShowLevelCompleteTimer ∈ pendingTimers r).
Proof.
  intros r. split; [vm_compute; reflexivity|].
  destruct (every_win_is_announced sampleLevels (Some 1) 1700
              [PressNumber 0 1800 "0.5"; PressOperation OpDiv;
               PressNumber 1 1900 "0.25"]) as [H _].
  apply H. vm_compute. reflexivity.
Defined.

(** The first scenario: two presses at different times. *)
Lemma tile_ids_stay_distinct_witness :
  let s := session (run sampleLevels (mount sampleLevels (Some 1) 1700)
                      [PressNumber 0 1800 "0.5"; PressOperation OpDiv;
                       PressNumber 1 1900 "0.25"]) in
  NoDup (map id (tiles s)).
Proof.
  intros s.
  destruct (tile_ids_stay_distinct sampleLevels (Some 1) 1700
              [PressNumber 0 1800 "0.5"; PressOperation OpDiv;
               PressNumber 1 1900 "0.25"]) as [H _]; [|exact H].
  apply (bool_decide_unpack _). vm_compute. exact I.
Defined.
